(** * Payouts, limit orders and bet filters of the prediction-market code

    A shallow embedding of
    - [functions/src/utils.ts]: [payUser], [checkAndMergePayouts], [payUsers];
    - the bet panel ([LimitOrderPanel] and its [submitBet]);
    - [web/components/bet/bets-list.tsx]: [FILTERS] and the open limit-order
      filter;
    together with the parts of the pricing and settlement core that the
    repository imports from [common/] and that are described in the
    specification only.

    JavaScript numbers are IEEE-754 binary64 values.  The code is written once
    over an interface [Number] and read at two instances: [binary64]
    (primitive floats, what the program computes) and [exact] (rationals, the
    arithmetic the program approximates). *)

From Stdlib Require Import Bool List String Ascii ZArith NArith Lia.
From Stdlib Require Import QArith Qminmax Lqa.
From Stdlib Require Import Floats.
From Stdlib Require Import Permutation.
Import ListNotations.

Set Implicit Arguments.
Set Warnings "-inexact-float".

(** ** Numbers *)

(** The operations of the JavaScript [number] type that the modelled code
    uses.  [a > b] is [nltb b a] and [a >= b] is [nleb b a]. *)
Class Number (num : Type) : Type := {
  nadd : num -> num -> num;
  nsub : num -> num -> num;
  nmul : num -> num -> num;
  ndiv : num -> num -> num;
  nltb : num -> num -> bool;          (* a < b *)
  nleb : num -> num -> bool;          (* a <= b *)
  neqb : num -> num -> bool;          (* a === b *)
  nisFinite : num -> bool;            (* isFinite(a) *)
  nmin : num -> num -> num;           (* Math.min(a, b) *)
  n0 : num;                           (* 0 *)
  n1 : num;                           (* 1 *)
  n100 : num;                         (* 100 *)
  n0_001 : num;                       (* 0.001 *)
  n0_999 : num                        (* 0.999 *)
}.

Declare Scope js_scope.
Delimit Scope js_scope with js.
Notation "a + b" := (nadd a b) : js_scope.
Notation "a - b" := (nsub a b) : js_scope.
Notation "a * b" := (nmul a b) : js_scope.
Notation "a / b" := (ndiv a b) : js_scope.
Notation "a <? b" := (nltb a b) : js_scope.
Notation "a <=? b" := (nleb a b) : js_scope.
Notation "a >? b" := (nltb b a) : js_scope.
Notation "a >=? b" := (nleb b a) : js_scope.
Notation "a === b" := (neqb a b) (at level 70, no associativity) : js_scope.

(** [x !== x] holds of NaN only. *)
Definition nisNaN {num} `{Number num} (x : num) : bool := negb (x === x)%js.

(** ToBoolean on a number: [0], [-0] and [NaN] are falsy. *)
Definition truthy {num} `{Number num} (x : num) : bool :=
  negb (nisNaN x || (x === n0)%js).

(** [!!v] for a value of type [number | undefined]. *)
Definition truthy_opt {num} `{Number num} (v : option num) : bool :=
  match v with
  | Some x => truthy x
  | None => false
  end.

(** Addition is exact: it is commutative and associative and [0] is neutral.
    This holds of the rationals and fails on binary64. *)
Definition exact_addition {num} `{Number num} : Prop :=
  (forall a b : num, (a + b)%js = (b + a)%js)
  /\ (forall a b c : num, (a + (b + c))%js = ((a + b) + c)%js)
  /\ (forall a : num, (n0 + a)%js = a).

(** *** binary64 *)

Module F64.

(** [isFinite]: false on NaN, [+Infinity] and [-Infinity]. *)
Definition isFinite (x : float) : bool :=
  match PrimFloat.classify x with
  | FloatClass.NaN | FloatClass.PInf | FloatClass.NInf => false
  | _ => true
  end.

Definition isNegZero (x : float) : bool :=
  match PrimFloat.classify x with
  | FloatClass.NZero => true
  | _ => false
  end.

(** [Math.min]: NaN when an argument is NaN, and [-0] below [+0]. *)
Definition min (a b : float) : float :=
  if PrimFloat.is_nan a || PrimFloat.is_nan b then PrimFloat.nan
  else if PrimFloat.ltb a b then a
  else if PrimFloat.ltb b a then b
  else if isNegZero a then a else b.

End F64.

#[export] Instance binary64 : Number float := {|
  nadd := PrimFloat.add;
  nsub := PrimFloat.sub;
  nmul := PrimFloat.mul;
  ndiv := PrimFloat.div;
  nltb := PrimFloat.ltb;
  nleb := PrimFloat.leb;
  neqb := PrimFloat.eqb;
  nisFinite := F64.isFinite;
  nmin := F64.min;
  n0 := 0%float;
  n1 := 1%float;
  n100 := 100%float;
  n0_001 := 0.001%float;
  n0_999 := 0.999%float
|}.

(** *** Exact rationals

    Every value is finite and no operation rounds.  [Qdiv] by zero is [0]; the
    statements proved at this instance divide by non-zero values only. *)
#[export] Instance exact : Number Q := {|
  nadd := Qplus;
  nsub := Qminus;
  nmul := Qmult;
  ndiv := Qdiv;
  nltb := fun a b => negb (Qle_bool b a);
  nleb := Qle_bool;
  neqb := Qeq_bool;
  nisFinite := fun _ => true;
  nmin := Qmin;
  n0 := 0%Q;
  n1 := 1%Q;
  n100 := 100%Q;
  n0_001 := (1 # 1000)%Q;
  n0_999 := (999 # 1000)%Q
|}.

(** ** JavaScript objects and lodash *)

Module JS.

(** An array index is a canonical decimal string below [2^32 - 1]. *)
Definition digit (c : ascii) : option N :=
  let n := N_of_ascii c in
  if ((48 <=? n) && (n <=? 57))%N then Some (n - 48)%N else None.

Fixpoint digits (s : string) (acc : N) : option N :=
  match s with
  | EmptyString => Some acc
  | String c r =>
      match digit c with
      | Some d => digits r (10 * acc + d)%N
      | None => None
      end
  end.

Definition arrayIndex (s : string) : option N :=
  match s with
  | EmptyString => None
  | String "0"%char EmptyString => Some 0%N
  | String "0"%char _ => None
  | _ =>
      match digits s 0%N with
      | Some n => if (n <=? 4294967294)%N then Some n else None
      | None => None
      end
  end.

Section Objects.
Context {A : Type}.

(** An object with string keys: its properties in creation order. *)
Definition object : Type := list (string * A).

Fixpoint insertIndexed (i : N) (kv : string * A)
    (l : list (N * (string * A))) : list (N * (string * A)) :=
  match l with
  | [] => [(i, kv)]
  | (j, x) :: r =>
      if (i <? j)%N then (i, kv) :: l else (j, x) :: insertIndexed i kv r
  end.

Fixpoint indexed (o : object) : list (N * (string * A)) :=
  match o with
  | [] => []
  | kv :: r =>
      match arrayIndex (fst kv) with
      | Some i => insertIndexed i kv (indexed r)
      | None => indexed r
      end
  end.

Definition named (o : object) : object :=
  filter (fun kv => match arrayIndex (fst kv) with
                    | Some _ => false
                    | None => true
                    end) o.

(** Enumeration order of own properties: array indices ascending, then the
    other keys in creation order. *)
Definition ownEntries (o : object) : object :=
  map snd (indexed o) ++ named o.

(** [Object.values] *)
Definition values (o : object) : list A := map snd (ownEntries o).
End Objects.

Arguments object : clear implicits.

End JS.

Module Lodash.

Section Collections.
Context {A B : Type}.

(** [groupBy]'s accumulator step: push onto the key's array, or create
    the property. *)
Fixpoint assignGroup (key : string) (v : A) (result : JS.object (list A))
    : JS.object (list A) :=
  match result with
  | [] => [(key, [v])]
  | (k, vs) :: rest =>
      if String.eqb k key then (k, vs ++ [v]) :: rest
      else (k, vs) :: assignGroup key v rest
  end.

Definition groupBy (collection : list A) (iteratee : A -> string)
    : JS.object (list A) :=
  fold_left (fun result v => assignGroup (iteratee v) v result)
            collection [].

(** [mapValues]: a fresh object, filled in the enumeration order of the
    argument. *)
Definition mapValues (o : JS.object A) (iteratee : A -> string -> B)
    : JS.object B :=
  map (fun kv => (fst kv, iteratee (snd kv) (fst kv))) (JS.ownEntries o).
End Collections.

Section Numeric.
Context {num : Type} `{Number num}.

(** [sumBy]: [0] on the empty array, otherwise the first value and then
    the others added from the left. *)
Definition sumBy {A : Type} (array : list A) (iteratee : A -> num) : num :=
  match array with
  | [] => n0
  | x :: rest =>
      fold_left (fun result y => (result + iteratee y)%js) rest (iteratee x)
  end.

(** [clamp(number, lower, upper)] with numeric bounds that are not NaN. *)
Definition clamp (number lower upper : num) : num :=
  if (number === number)%js then
    let number := if (number <=? upper)%js then number else upper in
    if (number >=? lower)%js then number else lower
  else number.
End Numeric.

End Lodash.

(** ** functions/src/utils.ts *)

Module Utils.

Section Payouts.
Context {num : Type} `{Number num}.

(** An element of the [payouts] argument:
    [{ userId: string; payout: number; deposit?: number }]. *)
Record Payout : Type := {
  userId : string;
  payout : num;
  deposit : option num
}.

(** An element of the merged list; [deposit] is always a number there. *)
Record MergedPayout : Type := {
  mergedUserId : string;
  mergedPayout : num;
  mergedDeposit : num
}.

(** [new Error('Payout is not finite: ' + payout)] and
    [new Error('Deposit is not finite: ' + deposit)]. *)
Inductive Error : Type :=
| PayoutIsNotFinite (payout : num)
| DepositIsNotFinite (deposit : num).

(** [transaction.update(userDoc, { balance: FieldValue.increment(..),
    totalDeposits: FieldValue.increment(..) })]. *)
Record Update : Type := {
  userDoc : string;
  balanceIncrement : num;
  totalDepositsIncrement : num
}.

(** The writes a transaction has buffered, oldest first. *)
Definition Transaction : Type := list Update.

(** The writes committed to the store, oldest first. *)
Definition Firestore : Type := list Update.

(** Computations over a state [S] that return or throw. *)
Inductive Outcome (S A : Type) : Type :=
| Returned (a : A) (s : S)
| Thrown (e : Error) (s : S).

Definition M (S A : Type) : Type := S -> Outcome S A.

Definition ret {S A} (a : A) : M S A := fun s => Returned a s.

Definition throw {S A} (e : Error) : M S A := fun s => Thrown A e s.

Definition bind {S A B} (c : M S A) (k : A -> M S B) : M S B :=
  fun s =>
    match c s with
    | Returned a s' => k a s'
    | Thrown _ e s' => Thrown B e s'
    end.

Definition liftE {S A} (r : Error + A) : M S A :=
  match r with
  | inl e => throw e
  | inr a => ret a
  end.

Fixpoint forEach {S A} (l : list A) (body : A -> M S unit) : M S unit :=
  match l with
  | [] => ret tt
  | x :: r => bind (body x) (fun _ => forEach r body)
  end.

Definition updateUserBalance (userId : string)
    (balanceDelta depositDelta : num) : M Transaction unit :=
  fun transaction =>
    Returned tt
      (transaction ++ [{| userDoc := "users/" ++ userId;
                          balanceIncrement := balanceDelta;
                          totalDepositsIncrement := depositDelta |}]).

(** [firestore.runTransaction(body)]: the body's writes are committed
    together; nothing is committed when the body throws. *)
Definition runTransaction {A} (body : M Transaction A) : M Firestore A :=
  fun firestore =>
    match body [] with
    | Returned a writes => Returned a (firestore ++ writes)
    | Thrown _ e _ => Thrown A e firestore
    end.

(** [payUser(userId, payout, isDeposit = false)] *)
Definition payUser (userId : string) (payout : num) (isDeposit : bool)
    : M Firestore unit :=
  if negb (nisFinite payout) then throw (PayoutIsNotFinite payout)
  else
    runTransaction
      (updateUserBalance userId payout (if isDeposit then payout else n0)).

(** The validation loop of [checkAndMergePayouts]: the first offending
    entry throws. *)
Fixpoint checkPayouts (payouts : list Payout) : option Error :=
  match payouts with
  | [] => None
  | p :: rest =>
      if negb (nisFinite (payout p)) then
        Some (PayoutIsNotFinite (payout p))
      else
        match deposit p with
        | Some d =>
            if negb (nisFinite d) then Some (DepositIsNotFinite d)
            else checkPayouts rest
        | None => checkPayouts rest
        end
  end.

(** [p.deposit ?? 0] *)
Definition depositOrZero (p : Payout) : num :=
  match deposit p with
  | Some d => d
  | None => n0
  end.

Definition mergeGroup (payouts : list Payout) (userId : string)
    : MergedPayout :=
  {| mergedUserId := userId;
     mergedPayout := Lodash.sumBy payouts payout;
     mergedDeposit := Lodash.sumBy payouts depositOrZero |}.

Definition checkAndMergePayouts (payouts : list Payout)
    : Error + list MergedPayout :=
  match checkPayouts payouts with
  | Some e => inl e
  | None =>
      let groupedPayouts := Lodash.groupBy payouts userId in
      inr (JS.values (Lodash.mapValues groupedPayouts mergeGroup))
  end.

(** [payUsers(transaction, payouts)] *)
Definition payUsers (payouts : list Payout) : M Transaction unit :=
  bind (liftE (checkAndMergePayouts payouts)) (fun mergedPayouts =>
    forEach mergedPayouts (fun m =>
      updateUserBalance (mergedUserId m) (mergedPayout m)
                        (mergedDeposit m))).

(** *** Vocabulary of the statements *)

(** An entry that the validation loop rejects. *)
Definition nonFinite (p : Payout) : Prop :=
  nisFinite (payout p) = false
  \/ exists d, deposit p = Some d /\ nisFinite d = false.

(** An entry that the validation loop accepts. *)
Definition allFinite (p : Payout) : Prop :=
  nisFinite (payout p) = true
  /\ forall d, deposit p = Some d -> nisFinite d = true.

(** The entries of the list that belong to a user, in order. *)
Definition payoutsOf (user : string) (payouts : list (Payout))
    : list (Payout) :=
  filter (fun q => String.eqb (userId q) user) payouts.
End Payouts.

Arguments Payout : clear implicits.
Arguments MergedPayout : clear implicits.
Arguments Error : clear implicits.
Arguments Update : clear implicits.
Arguments Transaction : clear implicits.
Arguments Firestore : clear implicits.

End Utils.

(** ** Contracts, users, bets *)

Inductive OutcomeType : Type :=
| BINARY | PSEUDO_NUMERIC | FREE_RESPONSE | NUMERIC.

Inductive Mechanism : Type := cpmm_1 | cpmm_2 | dpm_2.

(** ['YES' | 'NO'] *)
Inductive BinaryOutcome : Type := YES | NO.

(** [resolution] of a binary contract. *)
Inductive Resolution : Type :=
| ResolveYES | ResolveNO | ResolveMKT | ResolveCANCEL.

Section Records.
Context {num : Type}.

(** [pool: { YES: number, NO: number }] *)
Record Pool : Type := {
  poolYES : num;
  poolNO : num
}.

(** The fields of [Contract] that the modelled code reads. *)
Record Contract : Type := {
  id : string;
  slug : string;
  outcomeType : OutcomeType;
  mechanism : Mechanism;
  pool : Pool;
  p : num;
  isResolved : bool;
  resolution : option Resolution;
  resolutionProbability : option num;
  resolutionTime : option num;
  closeTime : option num
}.

(** [userId] is the user's [id]. *)
Record User : Type := {
  userId : string;
  balance : num
}.

(** An element of [bet.fills]. *)
Record Fill : Type := {
  fillAmount : num;
  fillShares : num;
  matchedBetId : option string;
  timestamp : num
}.

(** The fields of [Bet] that the modelled code reads. *)
Record Bet : Type := {
  betId : string;
  outcome : BinaryOutcome;
  amount : num;
  shares : num;
  loanAmount : option num;
  limitProb : option num;
  orderAmount : option num;
  fills : list Fill;
  isFilled : bool;
  isCancelled : bool
}.
End Records.

Arguments Pool : clear implicits.
Arguments Contract : clear implicits.
Arguments User : clear implicits.
Arguments Fill : clear implicits.
Arguments Bet : clear implicits.

(** ** The bet panel: [LimitOrderPanel] *)

Module BetPanel.

Section LimitOrderPanel.
Context {num : Type} `{Number num}.

(** The component's [useState] cells. *)
Record State : Type := {
  betAmount : option num;
  lowLimitProb : option num;
  highLimitProb : option num;
  error : option string;
  isSubmitting : bool
}.

(** [placeBet({ outcome, amount, limitProb, contractId })] *)
Record PlaceBet : Type := {
  placeOutcome : BinaryOutcome;
  placeAmount : option num;
  placeLimitProb : option num;
  placeContractId : string
}.

(** [track('bet', { ... })] *)
Record Track : Type := {
  trackOutcomeType : OutcomeType;
  trackSlug : string;
  trackContractId : string;
  trackAmount : num;
  trackOutcome : BinaryOutcome;
  trackLimitProb : option num;
  trackIsRangeOrder : bool
}.

Inductive Call : Type :=
| CallPlaceBet (args : PlaceBet)
| CallTrack (args : Track).

Definition isDefined {A} (v : option A) : bool :=
  match v with
  | Some _ => true
  | None => false
  end.

(** [!!error] on [string | undefined]: the empty string is falsy. *)
Definition truthy_string (v : option string) : bool :=
  match v with
  | Some s => negb (String.eqb s "")
  | None => false
  end.

Definition rangeError (s : State) : bool :=
  match lowLimitProb s, highLimitProb s with
  | Some low, Some high => (low >=? high)%js
  | _, _ => false
  end.

(** [limit !== undefined && (limit <= 0 || limit >= 100)] *)
Definition limitOutOfRange (limit : option num) : bool :=
  match limit with
  | Some l => (l <=? n0)%js || (l >=? n100)%js
  | None => false
  end.

Definition outOfRangeError (s : State) : bool :=
  limitOutOfRange (lowLimitProb s) || limitOutOfRange (highLimitProb s).

Definition hasYesLimitBet (s : State) : bool :=
  isDefined (lowLimitProb s) && truthy_opt (betAmount s).

Definition hasNoLimitBet (s : State) : bool :=
  isDefined (highLimitProb s) && truthy_opt (betAmount s).

Definition hasTwoBets (s : State) : bool :=
  hasYesLimitBet s && hasNoLimitBet s.

Definition betDisabled (s : State) : bool :=
  isSubmitting s
  || negb (truthy_opt (betAmount s))
  || rangeError s
  || outOfRangeError s
  || truthy_string (error s)
  || (negb (hasYesLimitBet s) && negb (hasNoLimitBet s)).

(** [limit === undefined ? undefined : clamp(limit / 100, 0.001, 0.999)] *)
Definition limitProbOf (limit : option num) : option num :=
  match limit with
  | Some l => Some (Lodash.clamp (l / n100)%js n0_001 n0_999)
  | None => None
  end.

Definition yesLimitProb (s : State) : option num :=
  limitProbOf (lowLimitProb s).

Definition noLimitProb (s : State) : option num :=
  limitProbOf (highLimitProb s).

(** [amount = betAmount ?? 0] *)
Definition amountOf (s : State) : num :=
  match betAmount s with
  | Some a => a
  | None => n0
  end.

(** [shares] *)
Definition sharesOf (s : State) : num :=
  let amount := amountOf s in
  match yesLimitProb s, noLimitProb s with
  | Some y, Some n => nmin (amount / y)%js (amount / (n1 - n))%js
  | Some y, None => (amount / y)%js
  | None, Some n => (amount / (n1 - n))%js
  | None, None => n0
  end.

Definition yesAmount (s : State) : num :=
  (sharesOf s * match yesLimitProb s with Some y => y | None => n1 end)%js.

Definition noAmount (s : State) : num :=
  (sharesOf s
   * (n1 - match noLimitProb s with Some n => n | None => n0 end))%js.

Definition trackCalls (contract : Contract num) (s : State) : list Call :=
  (if hasYesLimitBet s then
     [CallTrack {| trackOutcomeType := outcomeType contract;
                   trackSlug := slug contract;
                   trackContractId := id contract;
                   trackAmount := yesAmount s;
                   trackOutcome := YES;
                   trackLimitProb := yesLimitProb s;
                   trackIsRangeOrder := hasTwoBets s |}]
   else [])
  ++
  (if hasNoLimitBet s then
     [CallTrack {| trackOutcomeType := outcomeType contract;
                   trackSlug := slug contract;
                   trackContractId := id contract;
                   trackAmount := noAmount s;
                   trackOutcome := NO;
                   trackLimitProb := noLimitProb s;
                   trackIsRangeOrder := hasTwoBets s |}]
   else []).

(** [submitBet], up to the point where it returns: the new state and the
    calls it has issued, in order.  The promise handlers run later. *)
Definition submitBet (user : option (User num)) (contract : Contract num)
    (s : State) : State * list Call :=
  if negb (isDefined user) || betDisabled s then (s, [])
  else
    let s' := {| betAmount := betAmount s;
                 lowLimitProb := lowLimitProb s;
                 highLimitProb := highLimitProb s;
                 error := None;
                 isSubmitting := true |} in
    let bets :=
      if hasTwoBets s then
        [CallPlaceBet {| placeOutcome := YES;
                         placeAmount := Some (yesAmount s);
                         placeLimitProb := yesLimitProb s;
                         placeContractId := id contract |};
         CallPlaceBet {| placeOutcome := NO;
                         placeAmount := Some (noAmount s);
                         placeLimitProb := noLimitProb s;
                         placeContractId := id contract |}]
      else
        [CallPlaceBet {| placeOutcome :=
                           if hasYesLimitBet s then YES else NO;
                         placeAmount := betAmount s;
                         placeLimitProb :=
                           if hasYesLimitBet s then yesLimitProb s
                           else noLimitProb s;
                         placeContractId := id contract |}]
    in
    (s', bets ++ trackCalls contract s).

(** The [placeBet] calls among the calls issued. *)
Definition placed (calls : list Call) : list PlaceBet :=
  flat_map (fun c => match c with
                     | CallPlaceBet args => [args]
                     | CallTrack _ => []
                     end) calls.
End LimitOrderPanel.

Arguments State : clear implicits.
Arguments PlaceBet : clear implicits.
Arguments Track : clear implicits.
Arguments Call : clear implicits.

End BetPanel.

(** ** web/components/bet/bets-list.tsx *)

Module BetsList.

Inductive BetFilter : Type :=
| open | limit_bet | sold | closed | resolved | all.

(** Times are millisecond counts; they are compared, never computed with. *)
Definition FILTERS_resolved (c : Contract float) : bool :=
  truthy_opt (resolutionTime c).

(** [(c.closeTime ?? Infinity) < Date.now()] with [now] the clock's value. *)
Definition FILTERS_closed (now : float) (c : Contract float) : bool :=
  negb (FILTERS_resolved c)
  && PrimFloat.ltb (match closeTime c with
                    | Some t => t
                    | None => PrimFloat.infinity
                    end) now.

Definition FILTERS_open (now : float) (c : Contract float) : bool :=
  negb (FILTERS_closed now c || FILTERS_resolved c).

Definition FILTERS (now : float) (f : BetFilter) (c : Contract float) : bool :=
  match f with
  | resolved => FILTERS_resolved c
  | closed => FILTERS_closed now c
  | open => FILTERS_open now c
  | all => true
  | sold => true
  | limit_bet => FILTERS_open now c
  end.


End BetsList.

(** ** The pricing and settlement core, as the specification describes it *)

Module Core.

Section Core.
Context {num : Type} `{Number num}.

(** Modelled from the spec: [getCpmmProbability] is imported from
    [common/calculate-cpmm], which is not among the sources.  Section 4.1:
    [prob = p * poolNo / (p * poolNo + (1-p) * poolYes)]. *)
Definition getCpmmProbability (pool : Pool num) (p : num) : num :=
  ((p * poolNO pool) / (p * poolNO pool + (n1 - p) * poolYES pool))%js.

(** Modelled from the spec: [calculatePayout] and [resolvedPayout] are
    imported from [common/calculate], which is not among the sources.
    Section 4.4: a winning share pays one unit and a losing share nothing;
    [CANCEL] pays the amount wagered; [MKT] pays [shares * prob] on YES
    shares and [shares * (1 - prob)] on NO shares.  An unresolved contract
    has no payout. *)
Definition payout (contract : Contract num) (bet : Bet num) : option num :=
  match resolution contract with
  | Some ResolveYES =>
      Some (match outcome bet with YES => shares bet | NO => n0 end)
  | Some ResolveNO =>
      Some (match outcome bet with YES => n0 | NO => shares bet end)
  | Some ResolveCANCEL => Some (amount bet)
  | Some ResolveMKT =>
      match resolutionProbability contract with
      | Some prob =>
          Some (match outcome bet with
                | YES => (shares bet * prob)%js
                | NO => (shares bet * (n1 - prob))%js
                end)
      | None => None
      end
  | None => None
  end.

(** Modelled from the spec: section 4.4 on loans, "payout is reduced by
    outstanding [loanAmount] before disbursement". *)
Definition disbursement (contract : Contract num) (bet : Bet num)
    : option num :=
  match payout contract bet with
  | Some v =>
      Some (v - match loanAmount bet with Some l => l | None => n0 end)%js
  | None => None
  end.

(** *** Limit orders

    Modelled from the spec: the matcher lives in [common/new-bet], which is
    not among the sources.  Sections 3, 4.2 and 4.3: a limit order is open
    while it is neither filled nor cancelled (the filter of
    [BetsList.limitBets]); a match of an open order, against another order
    or against the pool, consumes the smaller of the requested amount still
    unmatched and the order's remaining amount, and appends a fill; an order
    with nothing remaining becomes filled; cancelling is a transition of its
    own. *)

(** [orderAmount - sum(fills.amount)] *)
Definition remaining (o : Bet num) : num :=
  (match orderAmount o with Some t => t | None => n0 end
   - Lodash.sumBy (fills o) fillAmount)%js.

Definition isOpen (o : Bet num) : bool :=
  BetPanel.isDefined (limitProb o)
  && negb (isCancelled o) && negb (isFilled o).

Inductive OrderState : Type := Open | PartiallyFilled | Filled | Cancelled.

Definition orderState (o : Bet num) : OrderState :=
  if isCancelled o then Cancelled
  else if isFilled o then Filled
  else match fills o with
       | [] => Open
       | _ :: _ => PartiallyFilled
       end.

(** The order after a match of [requested] money against the order
    [matchedWith], or against the pool when there is none. *)
Definition applyFill (requested fillShares : num) (matchedWith : option string)
    (time : num) (o : Bet num) : Bet num :=
  let matched := nmin requested (remaining o) in
  let fills' := fills o ++ [{| fillAmount := matched;
                               fillShares := fillShares;
                               matchedBetId := matchedWith;
                               timestamp := time |}] in
  {| betId := betId o;
     outcome := outcome o;
     amount := (amount o + matched)%js;
     shares := (shares o + fillShares)%js;
     loanAmount := loanAmount o;
     limitProb := limitProb o;
     orderAmount := orderAmount o;
     fills := fills';
     isFilled :=
       ((match orderAmount o with Some t => t | None => n0 end
         - Lodash.sumBy fills' fillAmount) === n0)%js;
     isCancelled := isCancelled o |}.

Definition cancel (o : Bet num) : Bet num :=
  {| betId := betId o;
     outcome := outcome o;
     amount := amount o;
     shares := shares o;
     loanAmount := loanAmount o;
     limitProb := limitProb o;
     orderAmount := orderAmount o;
     fills := fills o;
     isFilled := isFilled o;
     isCancelled := true |}.

(** A fill of an order: only open orders are matched, and only while some
    requested amount is unmatched. *)
Inductive filled_by : Bet num -> Bet num -> Prop :=
| filled_by_match requested fillShares matchedWith time o :
    isOpen o = true ->
    (n0 <? requested)%js = true ->
    filled_by o (applyFill requested fillShares matchedWith time o).

(** The transitions of one limit order. *)
Inductive step : Bet num -> Bet num -> Prop :=
| step_fill o o' : filled_by o o' -> step o o'
| step_cancel o : isOpen o = true -> step o (cancel o).


End Core.


End Core.

(** ** More of lodash and of functions/src/utils.ts *)

Module LodashArrays.

(** The slicing loop of [chunk]: at most [fuel] slices of [size] elements. *)
Fixpoint chunkLoop {A} (fuel : nat) (array : list A) (size : nat)
    : list (list A) :=
  match fuel with
  | O => []
  | S fuel' =>
      match array with
      | [] => []
      | _ :: _ =>
          firstn size array :: chunkLoop fuel' (skipn size array) size
      end
  end.

(** [chunk(array, size)] for a size that is a natural number: no chunk at
    all when the array is empty or the size is [0].  The loop runs while
    [index < length], which takes at most [length] rounds. *)
Definition chunk {A} (array : list A) (size : nat) : list (list A) :=
  if (size <? 1)%nat then [] else chunkLoop (List.length array) array size.

End LodashArrays.

Module UtilsMore.
Import Utils.

Section Payouts.
Context {num : Type} `{Number num}.

(** The update that the loops of [payUsers] and
    [payUsersMultipleTransactions] issue for a merged entry. *)
Definition updateOf (m : MergedPayout num) : Update num :=
  {| userDoc := "users/" ++ mergedUserId m;
     balanceIncrement := mergedPayout m;
     totalDepositsIncrement := mergedDeposit m |}.

(** The transactions that the store has committed, oldest first, each with
    the writes that it committed together. *)
Definition Ledger : Type := list (Transaction num).

(** [firestore.runTransaction(body)] on a store that keeps its transactions
    apart, when the commit succeeds: the writes of the body are committed as
    one transaction, and nothing is committed when the body throws.  The
    writes are those that [Utils.runTransaction] commits. *)
Definition runTransaction {A} (body : M (Transaction num) A)
    : @M num Ledger A :=
  fun ledger =>
    match body [] with
    | Returned a writes => Returned a (ledger ++ [writes])
    | Thrown _ e _ => Thrown A e ledger
    end.

(** [payUsersMultipleTransactions(payouts)]: the merged payouts in chunks of
    500, one transaction after the other. *)
Definition payUsersMultipleTransactions (payouts : list (Payout num))
    : @M num Ledger unit :=
  bind (liftE (checkAndMergePayouts payouts)) (fun mergedPayouts =>
    let payoutChunks := LodashArrays.chunk mergedPayouts 500 in
    forEach payoutChunks (fun payoutChunk =>
      runTransaction
        (forEach payoutChunk (fun m =>
           updateUserBalance (mergedUserId m) (mergedPayout m)
                             (mergedDeposit m))))).
End Payouts.

Section WriteAsync.
Context {Doc Fields : Type}.

(** [UpdateSpec]: a document reference and the fields to write. *)
Record UpdateSpec : Type := {
  doc : Doc;
  fields : Fields
}.

(** [operationType: 'update' | 'set'] *)
Inductive OperationType : Type := update | set.

(** An operation of a write batch: [batch.update(doc, fields)] or
    [batch.set(doc, fields)]. *)
Inductive BatchOp : Type :=
| BatchUpdate (d : Doc) (f : Fields)
| BatchSet (d : Doc) (f : Fields).

(** What [writeAsync] leaves behind: the batches committed, oldest first,
    and the progress lines logged, each with the two numbers it prints. *)
Record Written : Type := {
  committed : list (list BatchOp);
  logged : list (nat * nat)
}.

Definition batchOp (operationType : OperationType) (u : UpdateSpec)
    : BatchOp :=
  match operationType with
  | update => BatchUpdate (doc u) (fields u)
  | set => BatchSet (doc u) (fields u)
  end.

(** The body of the loop over the chunks, from index [i] on. *)
Fixpoint writeChunks (chunks : list (list UpdateSpec))
    (operationType : OperationType) (batchSize total i : nat) (w : Written)
    : Written :=
  match chunks with
  | [] => w
  | c :: rest =>
      writeChunks rest operationType batchSize total (S i)
        {| committed := committed w ++ [map (batchOp operationType) c];
           logged := logged w ++ [(i * batchSize, total)%nat] |}
  end.

(** [writeAsync(db, updates, operationType = 'update', batchSize = 500)] on
    a store that has committed and logged nothing yet, when every
    [batch.commit()] succeeds. *)
Definition writeAsync (updates : list UpdateSpec)
    (operationType : OperationType) (batchSize : nat) : Written :=
  writeChunks (LodashArrays.chunk updates batchSize) operationType batchSize
              (List.length updates) 0 {| committed := []; logged := [] |}.
End WriteAsync.

Arguments UpdateSpec : clear implicits.
Arguments BatchOp : clear implicits.
Arguments Written : clear implicits.

Section Paginated.
Context {T : Type}.

(** Documents are told apart by [sameDoc]. *)
Variable sameDoc : T -> T -> bool.

(** [q.startAfter(cursor)]: the documents of the query that follow the
    cursor document. *)
Fixpoint startAfter (cursor : T) (q : list T) : list T :=
  match q with
  | [] => []
  | d :: rest => if sameDoc d cursor then rest else startAfter cursor rest
  end.

(** [prev.docs[prev.size - 1]] *)
Definition lastDoc (page : list T) : option T :=
  match rev page with
  | [] => None
  | d :: _ => Some d
  end.

(** The loop shared by [loadPaginated] and [processPaginated]: the pages
    read, in order, the last one included.  A query is the list of its
    documents; [q.limit(n).get()], for a limit [n] of at least 1, reads the
    first [n] of them.  [fuel] bounds the number of reads; [None] when it
    runs out. *)
Fixpoint readPages (fuel : nat) (q : list T) (batchSize : nat)
    (prev : option (list T)) : option (list (list T)) :=
  match fuel with
  | O => None
  | S fuel' =>
      match prev with
      | None =>
          let page := firstn batchSize q in
          option_map (cons page) (readPages fuel' q batchSize (Some page))
      | Some p =>
          match lastDoc p with
          | None => Some []
          | Some cursor =>
              let page := firstn batchSize (startAfter cursor q) in
              option_map (cons page)
                         (readPages fuel' q batchSize (Some page))
          end
      end
  end.

(** [loadPaginated(q, batchSize)]: the documents of all pages. *)
Definition loadPaginated (fuel : nat) (q : list T) (batchSize : nat)
    : option (list T) :=
  option_map (@List.concat T) (readPages fuel q batchSize None).

(** [processPaginated(q, batchSize, fn)]: [fn] of every page read. *)
Definition processPaginated {U} (fuel : nat) (q : list T) (batchSize : nat)
    (fn : list T -> U) : option (list U) :=
  option_map (map fn) (readPages fuel q batchSize None).
End Paginated.

Section Partitioned.
Context {T U : Type}.

(** [currentlyProcessing]: [{ i, n, job }]. *)
Record Processing : Type := {
  index : nat;
  size : nat;
  job : U
}.

(** The state of the loop of [processPartitioned]. *)
Record LoopState : Type := {
  results : list U;
  docsProcessed : nat;
  currentlyProcessing : option Processing;
  next : nat
}.

(** What the loop body and the code after the loop do with the job under
    way: await it and count its documents. *)
Definition finish (s : LoopState) : LoopState :=
  match currentlyProcessing s with
  | Some c =>
      {| results := results s ++ [job c];
         docsProcessed := (docsProcessed s + size c)%nat;
         currentlyProcessing := currentlyProcessing s;
         next := next s |}
  | None => s
  end.

(** One round of the loop, on the documents [ts] of the next partition. *)
Definition round (fn : list T -> U) (s : LoopState) (ts : list T)
    : LoopState :=
  let s' := finish s in
  {| results := results s';
     docsProcessed := docsProcessed s';
     currentlyProcessing :=
       Some {| index := next s; size := List.length ts; job := fn ts |};
     next := S (next s) |}.

(** [processPartitioned(group, partitions, fn)] on the partitions that the
    group yields, each given by its documents, when every job is fulfilled;
    [fn ts] is the value that the promise [fn(ts.docs)] is fulfilled with. *)
Definition processPartitionedState (parts : list (list T))
    (fn : list T -> U) : LoopState :=
  finish
    (fold_left (round fn) parts
       {| results := []; docsProcessed := 0;
          currentlyProcessing := None; next := 0 |}).

Definition processPartitioned (parts : list (list T)) (fn : list T -> U)
    : list U :=
  results (processPartitionedState parts fn).
End Partitioned.

Arguments Processing : clear implicits.
Arguments LoopState : clear implicits.

End UtilsMore.

(** ** Promise chains, as the panels use them *)

Module Promise.

(** What a request is rejected with: an [APIError], given by the string that
    its [toString()] returns, or anything else. *)
Inductive Reason : Type :=
| APIError (toString : string)
| OtherError.

Inductive Settled : Type :=
| Fulfilled
| Rejected (e : Reason).

Section Chains.
Context {S Effect : Type}.

(** A promise at the time it settles: how it settles, the component's state
    and the calls the handlers have made so far. *)
Definition Chain : Type := Settled * S * list Effect.

(** [p.then(onFulfilled)] with a handler that returns normally: it runs on
    fulfilment, and a rejection passes through. *)
Definition then_ (p : Chain) (onFulfilled : S -> S * list Effect) : Chain :=
  match p with
  | (Fulfilled, s, calls) =>
      let (s', made) := onFulfilled s in (Fulfilled, s', calls ++ made)
  | (Rejected e, s, calls) => (Rejected e, s, calls)
  end.

(** [p.catch(onRejected)] with a handler that returns normally: it runs on
    rejection and the promise it returns is fulfilled. *)
Definition catch_ (p : Chain) (onRejected : Reason -> S -> S * list Effect)
    : Chain :=
  match p with
  | (Fulfilled, s, calls) => (Fulfilled, s, calls)
  | (Rejected e, s, calls) =>
      let (s', made) := onRejected e s in (Fulfilled, s', calls ++ made)
  end.
End Chains.

End Promise.

(** ** The bet panel: [BuyPanel] and the promise handlers *)

(** What the promise handlers of the panels call. *)
Inductive HandlerCall : Type :=
| ConsoleLog
| ConsoleError
| OnBuySuccess
| Toast.

Definition HandlerCall_eq_dec (a b : HandlerCall) : {a = b} + {a <> b}.
Proof. decide equality. Defined.

Module BuyPanel.

Section BuyPanel.
Context {num : Type} `{Number num}.

(** The component's [useState] cells. *)
Record State : Type := {
  outcome : option BinaryOutcome;
  betAmount : option num;
  error : option string;
  isSubmitting : bool
}.

(** [placeBet({ outcome, amount, contractId })] *)
Record PlaceBet : Type := {
  placeOutcome : option BinaryOutcome;
  placeAmount : option num;
  placeContractId : string
}.

(** [track('bet', { ... })] *)
Record Track : Type := {
  trackOutcomeType : OutcomeType;
  trackSlug : string;
  trackContractId : string;
  trackAmount : option num;
  trackOutcome : option BinaryOutcome
}.

Inductive Call : Type :=
| CallPlaceBet (args : PlaceBet)
| CallTrack (args : Track).

(** [outcome === choice] *)
Definition sameOutcome (a b : option BinaryOutcome) : bool :=
  match a, b with
  | Some YES, Some YES | Some NO, Some NO | None, None => true
  | _, _ => false
  end.

Definition onBetChoice (choice : BinaryOutcome) (s : State) : State :=
  {| outcome := Some choice;
     betAmount := betAmount s;
     error := error s;
     isSubmitting := isSubmitting s |}.

Definition mobileOnBetChoice (choice : option BinaryOutcome) (s : State)
    : State :=
  {| outcome := if sameOutcome (outcome s) choice then None else choice;
     betAmount := betAmount s;
     error := error s;
     isSubmitting := isSubmitting s |}.

Definition onBetChange (newAmount : option num) (s : State) : State :=
  {| outcome := if negb (BetPanel.isDefined (outcome s)) then Some YES
                else outcome s;
     betAmount := newAmount;
     error := error s;
     isSubmitting := isSubmitting s |}.

(** [submitBet], up to the point where it returns: the new state and the
    calls it has issued, in order.  The promise handlers run later. *)
Definition submitBet (user : option (User num)) (contract : Contract num)
    (s : State) : State * list Call :=
  if negb (BetPanel.isDefined user) || negb (truthy_opt (betAmount s))
  then (s, [])
  else
    ({| outcome := outcome s;
        betAmount := betAmount s;
        error := None;
        isSubmitting := true |},
     [CallPlaceBet {| placeOutcome := outcome s;
                      placeAmount := betAmount s;
                      placeContractId := id contract |};
      CallTrack {| trackOutcomeType := outcomeType contract;
                   trackSlug := slug contract;
                   trackContractId := id contract;
                   trackAmount := betAmount s;
                   trackOutcome := outcome s |}]).

Definition betDisabled (s : State) : bool :=
  isSubmitting s
  || negb (truthy_opt (betAmount s))
  || BetPanel.truthy_string (error s).

(** The [disabled] property of the button that calls [submitBet]. *)
Definition buttonDisabled (s : State) : bool :=
  betDisabled s || negb (BetPanel.isDefined (outcome s)).

(** The handler given to [.then]; [onBuySuccess] tells whether the property
    of that name is set. *)
Definition onPlaced (onBuySuccess : bool) (s : State)
    : State * list HandlerCall :=
  ({| outcome := outcome s;
      betAmount := None;
      error := error s;
      isSubmitting := false |},
   [ConsoleLog; if onBuySuccess then OnBuySuccess else Toast]).

(** The handler given to [.catch]. *)
Definition onFailed (e : Promise.Reason) (s : State)
    : State * list HandlerCall :=
  match e with
  | Promise.APIError message =>
      ({| outcome := outcome s;
          betAmount := betAmount s;
          error := Some message;
          isSubmitting := false |}, [])
  | Promise.OtherError =>
      ({| outcome := outcome s;
          betAmount := betAmount s;
          error := Some "Error placing bet"%string;
          isSubmitting := false |}, [ConsoleError])
  end.

(** [placeBet(...).then(...).catch(...)] once [placeBet] has settled, from
    the state [s] of the component at that time. *)
Definition settle (onBuySuccess : bool) (result : Promise.Settled)
    (s : State) : @Promise.Chain State HandlerCall :=
  Promise.catch_
    (Promise.then_ (result, s, []) (onPlaced onBuySuccess))
    onFailed.

(** The [placeBet] calls among the calls issued. *)
Definition placed (calls : list Call) : list PlaceBet :=
  flat_map (fun c => match c with
                     | CallPlaceBet args => [args]
                     | CallTrack _ => []
                     end) calls.
End BuyPanel.

Arguments State : clear implicits.
Arguments PlaceBet : clear implicits.
Arguments Track : clear implicits.
Arguments Call : clear implicits.

End BuyPanel.

(** The warning of the buy panel, on binary64 numbers. *)
Module BuyWarning.

Inductive Warning : Type :=
| SpendWarning          (* "You might not want to spend ..." *)
| MoveWarning.          (* "Are you sure you want to move the market ..." *)

(** [(betAmount ?? 0) / (user?.balance ?? 1e9)] *)
Definition bankrollFraction (betAmount : option float)
    (user : option (User float)) : float :=
  (match betAmount with Some a => a | None => 0 end
   / match user with Some u => balance u | None => 1e9 end)%float.

(** [warning], from [probChange = Math.abs(resultProb - initialProb)]. *)
Definition warning (betAmount : option float) (user : option (User float))
    (probChange : float) : option Warning :=
  let amount := match betAmount with Some a => a | None => 0%float end in
  let fraction := bankrollFraction betAmount user in
  if PrimFloat.leb 100 amount && PrimFloat.leb 0.5 fraction
     && PrimFloat.leb fraction 1
  then Some SpendWarning
  else if PrimFloat.ltb 10 amount && PrimFloat.ltb 0.299 probChange
          && PrimFloat.leb fraction 1
  then Some MoveWarning
  else None.

End BuyWarning.

(** [LimitOrderPanel]: the handlers of [betsPromise]. *)
Module LimitOrderPanel.
Import BetPanel.

Section Handlers.
Context {num : Type} `{Number num}.

(** [onBetChange] *)
Definition onBetChange (newAmount : option num) (s : State num)
    : State num :=
  {| betAmount := newAmount;
     lowLimitProb := lowLimitProb s;
     highLimitProb := highLimitProb s;
     error := error s;
     isSubmitting := isSubmitting s |}.

(** The handler given to [.catch]. *)
Definition onFailed (e : Promise.Reason) (s : State num)
    : State num * list HandlerCall :=
  match e with
  | Promise.APIError message =>
      ({| betAmount := betAmount s;
          lowLimitProb := lowLimitProb s;
          highLimitProb := highLimitProb s;
          error := Some message;
          isSubmitting := false |}, [])
  | Promise.OtherError =>
      ({| betAmount := betAmount s;
          lowLimitProb := lowLimitProb s;
          highLimitProb := highLimitProb s;
          error := Some "Error placing bet"%string;
          isSubmitting := false |}, [ConsoleError])
  end.

(** The handler given to [.then]. *)
Definition onPlaced (onBuySuccess : bool) (s : State num)
    : State num * list HandlerCall :=
  ({| betAmount := None;
      lowLimitProb := None;
      highLimitProb := None;
      error := error s;
      isSubmitting := false |},
   ConsoleLog :: if onBuySuccess then [OnBuySuccess] else []).

(** [betsPromise.catch(...).then(...)] once [betsPromise] has settled, from
    the state [s] of the component at that time. *)
Definition settle (onBuySuccess : bool) (result : Promise.Settled)
    (s : State num) : @Promise.Chain (State num) HandlerCall :=
  Promise.then_
    (Promise.catch_ (result, s, []) onFailed)
    (onPlaced onBuySuccess).

(** The [track] calls among the calls issued. *)
Definition tracked (calls : list (Call num)) : list (Track num) :=
  flat_map (fun c => match c with
                     | CallPlaceBet _ => []
                     | CallTrack args => [args]
                     end) calls.
End Handlers.

End LimitOrderPanel.

(** ** [FilterSelectUsers] *)

Module FilterSelectUsers.

Record SearchUserInfo : Type := {
  id : string;
  name : string;
  username : string;
  avatarUrl : string
}.

(** A call of [searchUsers] that has not been answered: the value of [id] in
    the effect that made it, and the [selectedUsers] that the handler given
    to [.then] has captured. *)
Record Request : Type := {
  requestedId : nat;
  selectedThen : list SearchUserInfo
}.

(** The component's state ([query], [filteredUsers], [requestId.current]),
    the property [selectedUsers], which the parent replaces by what
    [setSelectedUsers] is called with, and the calls of [searchUsers] under
    way.  The characters of [query] stand for its code units. *)
Record State : Type := {
  query : string;
  filteredUsers : list SearchUserInfo;
  requestId : nat;
  selectedUsers : list SearchUserInfo;
  pending : list Request
}.

Inductive Event : Type :=
| ChangeQuery (q : string)               (* the input's [onChange] *)
| Respond (request : nat) (results : list SearchUserInfo)
                                         (* [searchUsers] is fulfilled *)
| ClickSuggestion (i : nat)              (* on [filteredUsers[i]] *)
| ClickRemove (i : nat).                 (* on [selectedUsers[i]] *)

Section Component.
Variable ignoreUserIds : list string.
Variable maxUsers : option nat.

(** The filter applied to the results of [searchUsers]. *)
Definition keep (selected : list SearchUserInfo) (user : SearchUserInfo)
    : bool :=
  negb (existsb (fun u => String.eqb (name u) (name user)) selected)
  && negb (existsb (fun i => String.eqb i (id user)) ignoreUserIds).

(** The effect on [query], [selectedUsers] and [ignoreUserIds]. *)
Definition effect (s : State) : State :=
  let id := S (requestId s) in
  if (2 <? String.length (query s))%nat then
    {| query := query s;
       filteredUsers := filteredUsers s;
       requestId := id;
       selectedUsers := selectedUsers s;
       pending := pending s
                  ++ [{| requestedId := id;
                         selectedThen := selectedUsers s |}] |}
  else
    {| query := query s;
       filteredUsers := [];
       requestId := id;
       selectedUsers := selectedUsers s;
       pending := pending s |}.

(** [maxUsers ? selectedUsers.length < maxUsers : true] *)
Definition shouldShow (selected : list SearchUserInfo) : bool :=
  match maxUsers with
  | Some m => if (m =? 0)%nat then true else (List.length selected <? m)%nat
  | None => true
  end.

(** The component after its first render. *)
Definition mount (selected : list SearchUserInfo) : State :=
  effect {| query := EmptyString; filteredUsers := []; requestId := 0;
            selectedUsers := selected; pending := [] |}.

(** The handler given to [.then], on the answer to [request]. *)
Definition onResults (request : Request) (results : list SearchUserInfo)
    (s : State) : State :=
  let s' := {| query := query s;
               filteredUsers := filteredUsers s;
               requestId := requestId s;
               selectedUsers := selectedUsers s;
               pending := filter (fun r => negb (requestedId r
                                                 =? requestedId request)%nat)
                                 (pending s) |} in
  if (requestedId request =? requestId s)%nat then
    {| query := query s';
       filteredUsers := filter (keep (selectedThen request)) results;
       requestId := requestId s';
       selectedUsers := selectedUsers s';
       pending := pending s' |}
  else s'.

(** The component after an event, or [None] when the event cannot happen in
    the state: the input and the suggestions are rendered only when
    [shouldShow] holds. *)
Definition handle (e : Event) (s : State) : option State :=
  match e with
  | ChangeQuery q =>
      if shouldShow (selectedUsers s) then
        Some (if String.eqb q (query s) then s
              else effect {| query := q;
                             filteredUsers := filteredUsers s;
                             requestId := requestId s;
                             selectedUsers := selectedUsers s;
                             pending := pending s |})
      else None
  | Respond request results =>
      match find (fun r => (requestedId r =? request)%nat) (pending s) with
      | Some r => Some (onResults r results s)
      | None => None
      end
  | ClickSuggestion i =>
      match nth_error (filteredUsers s) i with
      | Some user =>
          if shouldShow (selectedUsers s)
          then Some (effect {| query := EmptyString;
                               filteredUsers := filteredUsers s;
                               requestId := requestId s;
                               selectedUsers := selectedUsers s ++ [user];
                               pending := pending s |})
          else None
      | None => None
      end
  | ClickRemove i =>
      match nth_error (selectedUsers s) i with
      | Some user =>
          Some (effect {| query := query s;
                          filteredUsers := filteredUsers s;
                          requestId := requestId s;
                          selectedUsers :=
                            filter (fun u => negb (String.eqb (id u)
                                                              (id user)))
                                   (selectedUsers s);
                          pending := pending s |})
      | None => None
      end
  end.

Fixpoint run (events : list Event) (s : State) : option State :=
  match events with
  | [] => Some s
  | e :: rest =>
      match handle e s with
      | Some s' => run rest s'
      | None => None
      end
  end.

(** No call of [searchUsers] under way is newer than [requestId.current]. *)
Definition requests_made (s : State) : Prop :=
  Forall (fun r => (requestedId r <= requestId s)%nat) (pending s).

(** What every state of the component satisfies: the selected users have
    distinct names, the suggestions pass the filter for the users selected
    now, and a call under way that carries the current id has captured the
    users selected now. *)
Record Inv (s : State) : Prop := {
  names_distinct : NoDup (map name (selectedUsers s));
  suggestions_kept :
    Forall (fun u => keep (selectedUsers s) u = true) (filteredUsers s);
  requests_current :
    Forall (fun r => (requestedId r <= requestId s)%nat
                     /\ (requestedId r = requestId s ->
                         selectedThen r = selectedUsers s))
           (pending s)
}.
End Component.

End FilterSelectUsers.

(** ** More of [ResolutionPanel] and of bets-list.tsx *)

Module ResolutionPanel.

Section ResolutionPanel.
Context {num : Type}.

(** The component's [useState] cells. *)
Record State : Type := {
  outcome : option Resolution;
  prob : option num;
  isSubmitting : bool;
  error : option string
}.

(** [resolveMarket({ outcome, contractId, probabilityInt })] *)
Record ResolveMarket : Type := {
  resolveOutcome : Resolution;
  resolveContractId : string;
  probabilityInt : option num
}.

(** [resolve], with the way in which [resolveMarket] settles: the state
    when [resolve] is over and the calls of [resolveMarket] made. *)
Definition resolve (contract : Contract num) (result : Promise.Settled)
    (s : State) : State * list ResolveMarket :=
  match outcome s with
  | None => (s, [])
  | Some o =>
      let call := {| resolveOutcome := o;
                     resolveContractId := id contract;
                     probabilityInt := prob s |} in
      let error' :=
        match result with
        | Promise.Fulfilled => error s
        | Promise.Rejected (Promise.APIError message) => Some message
        | Promise.Rejected Promise.OtherError =>
            Some "Error resolving market"%string
        end in
      ({| outcome := outcome s;
          prob := prob s;
          isSubmitting := false;
          error := error' |}, [call])
  end.

(** One call of [resolve] after the other. *)
Definition resolveAll (contract : Contract num)
    (results : list Promise.Settled) (s : State) : State :=
  fold_left (fun s result => fst (resolve contract result s)) results s.
End ResolutionPanel.

Arguments State : clear implicits.
Arguments ResolveMarket : clear implicits.

End ResolutionPanel.

Module BetsListMore.
Import BetsList.

Definition CONTRACTS_PER_PAGE : nat := 50.

(** [array.slice(start, end)] for indices that are not negative. *)
Definition slice {A} (start end_ : nat) (array : list A) : list A :=
  firstn (end_ - start) (skipn start array).

(** [displayedContracts] on page [page]. *)
Definition displayedContracts {A} (page : nat) (filteredContracts : list A)
    : list A :=
  let start := (page * CONTRACTS_PER_PAGE)%nat in
  let end_ := (start + CONTRACTS_PER_PAGE)%nat in
  slice start end_ filteredContracts.

Section Filtered.
Variable now : float.
(** [metricsByContract[c.id].hasShares] *)
Variable hasShares : Contract float -> bool.
(** [limitBetsByContract[c.id]?.length > 0] *)
Variable hasLimitBets : Contract float -> bool.

(** The second filter of [filteredContracts]. *)
Definition byShares (f : BetFilter) (c : Contract float) : bool :=
  match f with
  | all => true
  | sold => negb (hasShares c)
  | limit_bet => hasLimitBets c
  | _ => hasShares c
  end.

(** [filteredContracts], from [sorted], the value of
    [sortBy(contracts, SORTS[sort])]. *)
Definition filteredContracts (f : BetFilter) (sorted : list (Contract float))
    : list (Contract float) :=
  filter (byShares f) (filter (FILTERS now f) (rev sorted)).
End Filtered.

(** [closeTime && closeTime < Date.now()] of [ContractBets], as a condition. *)
Definition ContractBets_isClosed (now : float) (c : Contract float) : bool :=
  match closeTime c with
  | Some t => truthy t && PrimFloat.ltb t now
  | None => false
  end.

(** [closeTime && Date.now() > closeTime] of [BetRow], as a condition. *)
Definition BetRow_isClosed (now : float) (c : Contract float) : bool :=
  match closeTime c with
  | Some t => truthy t && PrimFloat.ltb t now
  | None => false
  end.

End BetsListMore.

(** ** functions/src/score-contracts.ts *)

Module ScoreContracts.

(** The fields of [Contract] that [scoreContractsInternal] reads. *)
Record Contract : Type := {
  id : string;
  createdTime : float;
  outcomeType : OutcomeType;
  mechanism : Mechanism;
  uniqueBettors7Days : option float;
  uniqueBettors24Hours : option float;
  probChangesDay : float;                (* [probChanges.day] *)
  popularityScore : option float;
  dailyScore : option float
}.

(** The fields given to [update], before [removeUndefinedProps]. *)
Record Scores : Type := {
  newPopularityScore : float;
  newDailyScore : option float
}.

(** [contracts]: the active contracts, then the previously active ones whose
    id is not among the active ones. *)
Definition contractsToScore (activeContracts previous : list Contract)
    : list Contract :=
  let activeContractIds := map id activeContracts in
  activeContracts
  ++ filter (fun c => negb (existsb (String.eqb (id c)) activeContractIds))
            previous.

(** [a !== b] on values of type [number | undefined]. *)
Definition strictNeq (a b : option float) : bool :=
  match a, b with
  | Some x, Some y => negb (PrimFloat.eqb x y)
  | None, None => false
  | _, _ => true
  end.

Definition orZero (v : option float) : float :=
  match v with
  | Some x => x
  | None => 0%float
  end.

Section Scoring.
(** [Math.log] *)
Variable log : float -> float.
(** [now - DAY_MS] *)
Variable dayAgo : float.

Definition popularityScoreOf (contract : Contract) : float :=
  (orZero (uniqueBettors7Days contract) / 10
   + orZero (uniqueBettors24Hours contract))%float.

Definition wasCreatedToday (contract : Contract) : bool :=
  PrimFloat.ltb dayAgo (createdTime contract).

Definition dailyScoreOf (contract : Contract) : option float :=
  match outcomeType contract, mechanism contract with
  | BINARY, cpmm_1 =>
      if negb (wasCreatedToday contract) then
        let percentChange := PrimFloat.abs (probChangesDay contract) in
        Some (log (orZero (uniqueBettors7Days contract) + 1)
              * percentChange)%float
      else None
  | _, _ => None
  end.

(** The condition under which the contract is updated. *)
Definition needsUpdate (contract : Contract) : bool :=
  strictNeq (popularityScore contract) (Some (popularityScoreOf contract))
  || strictNeq (dailyScore contract) (dailyScoreOf contract).

(** The loop over [contracts]: the documents updated, in order, with the
    scores given. *)
Definition scoreAll (contracts : list Contract) : list (string * Scores) :=
  flat_map (fun contract =>
              if needsUpdate contract then
                [(id contract,
                  {| newPopularityScore := popularityScoreOf contract;
                     newDailyScore := dailyScoreOf contract |})]
              else [])
           contracts.

Definition scoreContractsInternal (activeContracts previous : list Contract)
    : list (string * Scores) :=
  scoreAll (contractsToScore activeContracts previous).
End Scoring.

End ScoreContracts.

(** ** firestore.rules *)

Module FirestoreRules.

(** The value of a condition: a boolean, or [None] when its evaluation
    fails (a field of [null], a key that a map does not have). *)
Definition Cond : Type := option bool.

(** [a && b] and [a || b]: a failure on one side is absorbed when the other
    side decides. *)
Definition and3 (a b : Cond) : Cond :=
  match a, b with
  | Some false, _ | _, Some false => Some false
  | Some true, Some true => Some true
  | _, _ => None
  end.

Definition or3 (a b : Cond) : Cond :=
  match a, b with
  | Some true, _ | _, Some true => Some true
  | Some false, Some false => Some false
  | _, _ => None
  end.

Definition not3 (a : Cond) : Cond := option_map negb a.

(** [allow ...: if condition] grants when the condition is true. *)
Definition allows (condition : Cond) : bool :=
  match condition with
  | Some true => true
  | _ => false
  end.

(** [request.auth]: [uid] and [token.email]. *)
Record Auth : Type := {
  uid : string;
  email : option string
}.

(** [set.hasOnly(list)] on sets of strings. *)
Definition hasOnly (set allowed : list string) : bool :=
  forallb (fun k => existsb (String.eqb k) allowed) set.

Definition admins : list string :=
  [ "akrolsmir@gmail.com"; "jahooma@gmail.com"; "taowell@gmail.com";
    "abc.sinclair@gmail.com"; "manticmarkets@gmail.com";
    "iansphilips@gmail.com"; "d4vidchee@gmail.com"; "ingawei@gmail.com";
    "marshall@pol.rs" ]%string.

Definition userKeys : list string :=
  [ "userDeleted"; "bio"; "website"; "twitterHandle"; "discordHandle";
    "shouldShowWelcome"; "hasSeenContractFollowModal";
    "homeSections" ]%string.

Definition referralKeys : list string :=
  [ "referredByUserId"; "referredByContractId";
    "referredByGroupId" ]%string.

Definition privateUserKeys : list string :=
  [ "email"; "apiKey"; "notificationPreferences"; "twitchInfo"; "pushToken";
    "rejectedPushNotificationsOn"; "blockedUserIds"; "blockedContractIds";
    "blockedGroupSlugs"; "interestedInPushNotifications";
    "hasSeenAppBannerInNotificationsOn" ]%string.

Definition contractTagKeys : list string :=
  [ "tags"; "lowercaseTags"; "groupSlugs"; "groupLinks";
    "flaggedByUsernames" ]%string.

Definition contractCreatorKeys : list string :=
  [ "description"; "closeTime"; "question"; "visibility";
    "unlistedById" ]%string.

Section Rules.
(** The values of the fields of a document, with [==] on them, the value of
    a string and the elements of a value that is a list. *)
Variable Value : Type.
Variable Value_eqb : Value -> Value -> bool.
Variable ofString : string -> Value.
Variable asList : Value -> option (list Value).

(** The fields of a document; the first binding of a key is its value. *)
Definition Data : Type := list (string * Value).

Fixpoint get (key : string) (data : Data) : option Value :=
  match data with
  | [] => None
  | (k, v) :: rest => if String.eqb key k then Some v else get key rest
  end.

(** [key in data] *)
Definition has (key : string) (data : Data) : bool :=
  match get key data with
  | Some _ => true
  | None => false
  end.

(** The key is added, removed or modified between [old] and [new]. *)
Definition affected (new old : Data) (key : string) : bool :=
  match get key new, get key old with
  | Some a, Some b => negb (Value_eqb a b)
  | None, None => false
  | _, _ => true
  end.

(** [new.diff(old).affectedKeys()] *)
Definition affectedKeys (new old : Data) : list string :=
  filter (affected new old)
         (nodup string_dec (map fst new ++ map fst old)).

(** [request]: [auth] and [resource.data], the document as the update would
    leave it. *)
Record Request : Type := {
  auth : option Auth;
  data : Data
}.

(** [request.auth.uid] *)
Definition authUid (request : Request) : option string :=
  option_map uid (auth request).

(** [userId == request.auth.uid] *)
Definition isUser (userId : string) (request : Request) : Cond :=
  option_map (String.eqb userId) (authUid request).

(** [isAdmin()] *)
Definition isAdmin (request : Request) : Cond :=
  match auth request with
  | Some a => option_map (fun e => existsb (String.eqb e) admins) (email a)
  | None => None
  end.

(** [request.resource.data.diff(resource.data).affectedKeys().hasOnly(...)] *)
Definition affectsOnly (request : Request) (resource : Data)
    (allowed : list string) : Cond :=
  Some (hasOnly (affectedKeys (data request) resource) allowed).

(** [match /users/{userId}]: the three [allow update] statements. *)
Definition users_update (userId : string) (request : Request)
    (resource : Data) : bool :=
  allows (isAdmin request)
  || allows (and3 (isUser userId request)
                  (affectsOnly request resource userKeys))
  || allows
       (and3 (isUser userId request)
          (and3 (affectsOnly request resource referralKeys)
             (and3 (not3 (Some (has "referredByUserId" resource)))
                   (not3 (option_map (Value_eqb (ofString userId))
                            (get "referredByUserId" (data request))))))).

(** [resource.data.creatorId == request.auth.uid] *)
Definition isCreator (request : Request) (resource : Data) : Cond :=
  match get "creatorId" resource, authUid request with
  | Some creatorId, Some u => Some (Value_eqb creatorId (ofString u))
  | _, _ => None
  end.

(** [match /contracts/{contractId}]: the three [allow update] statements. *)
Definition contracts_update (request : Request) (resource : Data) : bool :=
  allows (affectsOnly request resource contractTagKeys)
  || allows (and3 (affectsOnly request resource contractCreatorKeys)
                  (isCreator request resource))
  || allows (isAdmin request).

(** [new.blockedByUserIds.toSet().difference(old.blockedByUserIds.toSet())
    .hasOnly([request.auth.uid])] *)
Definition blocksOnlySelf (request : Request) (resource : Data) : Cond :=
  match get "blockedByUserIds" (data request),
        get "blockedByUserIds" resource, authUid request with
  | Some new, Some old, Some u =>
      match asList new, asList old with
      | Some newIds, Some oldIds =>
          Some (forallb (fun i => Value_eqb i (ofString u))
                  (filter (fun i => negb (existsb (Value_eqb i) oldIds))
                          newIds))
      | _, _ => None
      end
  | _, _, _ => None
  end.

(** [match /private-users/{userId}]: the two [allow update] statements. *)
Definition privateUsers_update (userId : string) (request : Request)
    (resource : Data) : bool :=
  allows (and3 (or3 (isUser userId request) (isAdmin request))
               (affectsOnly request resource privateUserKeys))
  || allows
       (and3 (or3 (Some (BetPanel.isDefined (auth request)))
                  (isAdmin request))
          (and3 (affectsOnly request resource ["blockedByUserIds"%string])
                (blocksOnlySelf request resource))).
End Rules.

Arguments Request : clear implicits.

End FirestoreRules.

(** ** More example inputs *)

(** A list whose fourth entry has a deposit that is not a number and whose
    fifth has an infinite payout. *)
Definition brokenPayouts : list (Utils.Payout float) :=
  [ {| Utils.userId := "alice"; Utils.payout := 0.1%float;
       Utils.deposit := None |};
    {| Utils.userId := "bob"; Utils.payout := 0.1%float;
       Utils.deposit := None |};
    {| Utils.userId := "alice"; Utils.payout := 0.4%float;
       Utils.deposit := None |};
    {| Utils.userId := "carol"; Utils.payout := 1%float;
       Utils.deposit := Some PrimFloat.nan |};
    {| Utils.userId := "dave"; Utils.payout := PrimFloat.infinity;
       Utils.deposit := None |} ].


(** The buy panel with 10 on YES entered. *)
Definition yesPurchase : BuyPanel.State float :=
  {| BuyPanel.outcome := Some YES;
     BuyPanel.betAmount := Some 10%float;
     BuyPanel.error := None;
     BuyPanel.isSubmitting := false |}.

(** An open contract. *)
Definition openContract : Contract float :=
  {| id := "contract"; slug := "will-it-rain";
     outcomeType := BINARY; mechanism := cpmm_1;
     pool := {| poolYES := 100%float; poolNO := 100%float |};
     p := 0.5%float;
     isResolved := false; resolution := None;
     resolutionProbability := None;
     resolutionTime := None;
     closeTime := Some 1690000000000%float |}.

(** Two users that a search returns. *)
Definition ada : FilterSelectUsers.SearchUserInfo :=
  {| FilterSelectUsers.id := "u1"; FilterSelectUsers.name := "Ada";
     FilterSelectUsers.username := "ada"; FilterSelectUsers.avatarUrl := "" |}.

Definition adam : FilterSelectUsers.SearchUserInfo :=
  {| FilterSelectUsers.id := "u2"; FilterSelectUsers.name := "Adam";
     FilterSelectUsers.username := "adam";
     FilterSelectUsers.avatarUrl := "" |}.

(** Ada is searched for and selected, searched for again, and Adam is
    selected from the second answer; the first answer to the second search
    arrives late. *)
Definition selectTwice : list FilterSelectUsers.Event :=
  [ FilterSelectUsers.ChangeQuery "ada";
    FilterSelectUsers.Respond 2 [ada; adam];
    FilterSelectUsers.ClickSuggestion 0;
    FilterSelectUsers.ChangeQuery "ada";
    FilterSelectUsers.ChangeQuery "adam";
    FilterSelectUsers.Respond 5 [ada; adam];
    FilterSelectUsers.Respond 4 [ada; adam];
    FilterSelectUsers.ClickSuggestion 0 ].

(** A free-response contract whose stored scores are up to date. *)
Definition scoredContract : ScoreContracts.Contract :=
  {| ScoreContracts.id := "scored";
     ScoreContracts.createdTime := 1660000000000%float;
     ScoreContracts.outcomeType := FREE_RESPONSE;
     ScoreContracts.mechanism := dpm_2;
     ScoreContracts.uniqueBettors7Days := Some 20%float;
     ScoreContracts.uniqueBettors24Hours := Some 3%float;
     ScoreContracts.probChangesDay := 0%float;
     ScoreContracts.popularityScore := Some 5%float;
     ScoreContracts.dailyScore := None |}.

(** Field values for the examples of the rules: strings, lists of strings
    and integers. *)
Inductive Field : Type :=
| FString (s : string)
| FStrings (l : list string)
| FNumber (z : Z).

Definition Field_eq_dec (a b : Field) : {a = b} + {a <> b}.
Proof.
  decide equality;
    [apply string_dec | apply (list_eq_dec string_dec) | apply Z.eq_dec].
Defined.

Definition Field_eqb (a b : Field) : bool :=
  if Field_eq_dec a b then true else false.

Definition Field_asList (a : Field) : option (list Field) :=
  match a with
  | FStrings l => Some (map FString l)
  | _ => None
  end.

Definition alice : FirestoreRules.Auth :=
  {| FirestoreRules.uid := "alice";
     FirestoreRules.email := Some "alice@example.com"%string |}.

(** Alice's user document, and the document with another [bio]. *)
Definition aliceDoc : FirestoreRules.Data Field :=
  [ ("bio", FString ""); ("balance", FNumber 1000) ]%string.

Definition aliceBio : FirestoreRules.Request Field :=
  {| FirestoreRules.auth := Some alice;
     FirestoreRules.data :=
       [ ("bio", FString "hello"); ("balance", FNumber 1000) ]%string |}.

(** A contract of Alice's, and the document with another question. *)
Definition aliceMarket : FirestoreRules.Data Field :=
  [ ("creatorId", FString "alice"); ("question", FString "Rain?");
    ("tags", FStrings []) ]%string.

Definition aliceQuestion : FirestoreRules.Request Field :=
  {| FirestoreRules.auth := Some alice;
     FirestoreRules.data :=
       [ ("creatorId", FString "alice"); ("question", FString "Snow?");
         ("tags", FStrings []) ]%string |}.

(** Bob's private document, and the document after Alice has blocked Bob. *)
Definition bobPrivate : FirestoreRules.Data Field :=
  [ ("email", FString "bob@example.com");
    ("blockedByUserIds", FStrings ["carol"]) ]%string.

Definition aliceBlocksBob : FirestoreRules.Request Field :=
  {| FirestoreRules.auth := Some alice;
     FirestoreRules.data :=
       [ ("email", FString "bob@example.com");
         ("blockedByUserIds", FStrings ["carol"; "alice"]) ]%string |}.





(** A user whose balance has gone negative. *)
Definition indebted : User float :=
  {| userId := "indebted"; balance := (-100)%float |}.
(** ** Vocabulary of the statements on grouping and sums *)

Module Grouping.

(** The array stored under a key. *)
Fixpoint lookup {A} (key : string) (o : JS.object (list A))
    : option (list A) :=
  match o with
  | [] => None
  | (k, vs) :: rest => if String.eqb k key then Some vs else lookup key rest
  end.

(** The values of the collection that carry the key, in order. *)
Definition withKey {A} (iteratee : A -> string) (key : string) (l : list A)
    : list A :=
  filter (fun v => String.eqb (iteratee v) key) l.

(** The sum of a list taken from the right, starting from [0]. *)
Definition total {num} `{Number num} {A} (f : A -> num) (l : list A) : num :=
  fold_right (fun x acc => (f x + acc)%js) n0 l.

(** The sum of the group sums. *)
Definition groupsTotal {num} `{Number num} {A} (f : A -> num)
    (o : JS.object (list A)) : num :=
  total (fun kv => total f (snd kv)) o.

End Grouping.

(** ** Example inputs *)

(** Three payouts to two users whose total depends on the order of the
    additions. *)
Definition unevenPayouts : list (Utils.Payout float) :=
  [ {| Utils.userId := "alice"; Utils.payout := 0.1%float;
       Utils.deposit := None |};
    {| Utils.userId := "bob"; Utils.payout := 0.1%float;
       Utils.deposit := None |};
    {| Utils.userId := "alice"; Utils.payout := 0.4%float;
       Utils.deposit := None |} ].

Definition trader : User float :=
  {| userId := "trader"; balance := 1000%float |}.

(** A contract that was closed and then resolved. *)
Definition resolvedContract : Contract float :=
  {| id := "contract"; slug := "will-it-rain";
     outcomeType := BINARY; mechanism := cpmm_1;
     pool := {| poolYES := 100%float; poolNO := 100%float |};
     p := 0.5%float;
     isResolved := true; resolution := Some ResolveYES;
     resolutionProbability := None;
     resolutionTime := Some 1670000000000%float;
     closeTime := Some 1660000000000%float |}.

(** A contract that resolved to CANCEL. *)
Definition cancelledContract : Contract float :=
  {| id := "contract"; slug := "will-it-rain";
     outcomeType := BINARY; mechanism := cpmm_1;
     pool := {| poolYES := 100%float; poolNO := 100%float |};
     p := 0.5%float;
     isResolved := true; resolution := Some ResolveCANCEL;
     resolutionProbability := None;
     resolutionTime := Some 1670000000000%float;
     closeTime := Some 1660000000000%float |}.

(** A bet of 25 that bought 40 YES shares. *)
Definition yesBet : Bet float :=
  {| betId := "bet"; outcome := YES; amount := 25%float; shares := 40%float;
     loanAmount := None; limitProb := None; orderAmount := None;
     fills := []; isFilled := true; isCancelled := false |}.




(** At most 10 on YES up to 1% and on NO down to 46%. *)
Definition rangeOrder : BetPanel.State float :=
  {| BetPanel.betAmount := Some 10%float;
     BetPanel.lowLimitProb := Some 1%float;
     BetPanel.highLimitProb := Some 46%float;
     BetPanel.error := None;
     BetPanel.isSubmitting := false |}.

(** [rangeOrder] over the rationals. *)
Definition rangeOrderExact : BetPanel.State Q :=
  {| BetPanel.betAmount := Some 10%Q;
     BetPanel.lowLimitProb := Some 1%Q;
     BetPanel.highLimitProb := Some 46%Q;
     BetPanel.error := None;
     BetPanel.isSubmitting := false |}.


(** * Properties *)

(** ** The code on small inputs *)

(** Keys that are array indices are enumerated first, in numeric order; the
    others follow in the order of their first occurrence. *)
Example merge_enumeration_order :
  Utils.checkAndMergePayouts
    [ {| Utils.userId := "bob"; Utils.payout := 1%float;
         Utils.deposit := None |};
      {| Utils.userId := "10"; Utils.payout := 2%float;
         Utils.deposit := Some 2%float |};
      {| Utils.userId := "bob"; Utils.payout := 3%float;
         Utils.deposit := Some 1%float |};
      {| Utils.userId := "7"; Utils.payout := 5%float;
         Utils.deposit := None |};
      {| Utils.userId := "07"; Utils.payout := 6%float;
         Utils.deposit := None |} ]
  = inr [ {| Utils.mergedUserId := "7"; Utils.mergedPayout := 5%float;
             Utils.mergedDeposit := 0%float |};
          {| Utils.mergedUserId := "10"; Utils.mergedPayout := 2%float;
             Utils.mergedDeposit := 2%float |};
          {| Utils.mergedUserId := "bob"; Utils.mergedPayout := 4%float;
             Utils.mergedDeposit := 1%float |};
          {| Utils.mergedUserId := "07"; Utils.mergedPayout := 6%float;
             Utils.mergedDeposit := 0%float |} ].
Proof. vm_compute. reflexivity. Qed.

Example payUser_deposit :
  Utils.payUser "alice" 3%float true []
  = Utils.Returned tt
      [ {| Utils.userDoc := "users/alice";
           Utils.balanceIncrement := 3%float;
           Utils.totalDepositsIncrement := 3%float |} ].
Proof. reflexivity. Qed.

Example payUser_nan :
  Utils.payUser "alice" PrimFloat.nan false []
  = Utils.Thrown unit (Utils.PayoutIsNotFinite PrimFloat.nan) [].
Proof. reflexivity. Qed.

Example clamp_examples :
  Lodash.clamp 0.5%float 0.001%float 0.999%float = 0.5%float
  /\ Lodash.clamp 0%float 0.001%float 0.999%float = 0.001%float
  /\ Lodash.clamp 1%float 0.001%float 0.999%float = 0.999%float
  /\ Lodash.clamp (1 # 2)%Q n0_001 n0_999 = (1 # 2)%Q.
Proof. repeat split; vm_compute; reflexivity. Qed.

Example FILTERS_examples :
  BetsList.FILTERS 1680000000000%float BetsList.resolved resolvedContract
  = true
  /\ BetsList.FILTERS 1680000000000%float BetsList.closed resolvedContract
     = false
  /\ BetsList.FILTERS 1680000000000%float BetsList.open resolvedContract
     = false.
Proof. repeat split; vm_compute; reflexivity. Qed.

Example range_order_submitted :
  BetPanel.placed
    (snd (BetPanel.submitBet (Some trader) resolvedContract rangeOrder))
  = [ {| BetPanel.placeOutcome := YES;
         BetPanel.placeAmount := Some 0.1851851851851852%float;
         BetPanel.placeLimitProb := Some 0.01%float;
         BetPanel.placeContractId := "contract" |};
      {| BetPanel.placeOutcome := NO;
         BetPanel.placeAmount := Some 10.000000000000002%float;
         BetPanel.placeLimitProb := Some 0.46%float;
         BetPanel.placeContractId := "contract" |} ].
Proof. vm_compute. reflexivity. Qed.

Example price_of_even_pool :
  Core.getCpmmProbability {| poolYES := 100%float; poolNO := 100%float |}
                          0.5%float
  = 0.5%float.
Proof. vm_compute. reflexivity. Qed.

(** ** Numbers *)

(** On binary64, [isFinite] rejects exactly NaN and the two infinities. *)
Lemma isFinite_false_iff (x : float) :
  F64.isFinite x = false <->
  x = PrimFloat.nan \/ x = PrimFloat.infinity \/ x = PrimFloat.neg_infinity.
Proof.
  unfold F64.isFinite. rewrite classify_spec.
  split.
  - intros Hc. rewrite <- (SF2Prim_Prim2SF x).
    destruct (Prim2SF x) as [s | s | | s m e]; cbn in Hc.
    + destruct s; discriminate.
    + destruct s; [right; right | right; left]; reflexivity.
    + left; reflexivity.
    + unfold SF64classify, SFclassify in Hc.
      destruct s;
        match type of Hc with
        | context [if ?b then _ else _] => destruct b
        end; discriminate.
  - intros [-> | [-> | ->]]; reflexivity.
Qed.

(** ** Failing closed: [payUser] and [payUsers] *)

Module UtilsFacts.
Import Utils.

Section Generic.
Context {num : Type} `{Number num}.

Lemma checkPayouts_throws (payouts : list (Payout num)) :
  Exists nonFinite payouts -> exists e, checkPayouts payouts = Some e.
Proof.
  induction payouts as [| q rest IH]; intros Hex.
  - inversion Hex.
  - cbn [checkPayouts].
    destruct (nisFinite (payout q)) eqn:Hp; cbn [negb]; [| eauto].
    destruct (deposit q) as [d |] eqn:Hd.
    + destruct (nisFinite d) eqn:Hfd; cbn [negb]; [| eauto].
      apply IH. inversion Hex as [? ? [Hq | (d' & Hd' & Hq)] | ]; subst;
        try congruence.
    + apply IH. inversion Hex as [? ? [Hq | (d' & Hd' & Hq)] | ]; subst;
        try congruence.
Qed.

Lemma checkPayouts_passes (payouts : list (Payout num)) :
  Forall allFinite payouts <-> checkPayouts payouts = None.
Proof.
  induction payouts as [| q rest IH]; cbn [checkPayouts].
  - split; auto.
  - split.
    + intros Hall. inversion Hall as [| ? ? [Hp Hd] Hrest]; subst.
      rewrite Hp; cbn [negb].
      destruct (deposit q) as [d |].
      * rewrite (Hd d eq_refl); cbn [negb]. now apply IH.
      * now apply IH.
    + destruct (nisFinite (payout q)) eqn:Hp; cbn [negb]; [| discriminate].
      destruct (deposit q) as [d |] eqn:Hd.
      * destruct (nisFinite d) eqn:Hfd; cbn [negb]; [| discriminate].
        intros Hrest. constructor; [| now apply IH].
        split; [assumption |]. intros d' Hd'. congruence.
      * intros Hrest. constructor; [| now apply IH].
        split; [assumption |]. intros d' Hd'. congruence.
Qed.

Lemma checkAndMergePayouts_throws (payouts : list (Payout num)) e :
  checkAndMergePayouts payouts = inl e <-> checkPayouts payouts = Some e.
Proof.
  unfold checkAndMergePayouts.
  destruct (checkPayouts payouts); split; congruence.
Qed.

(** The update loop never throws. *)
Lemma forEach_update_returns (merged : list (MergedPayout num)) :
  forall transaction, exists transaction',
    forEach merged
      (fun m => updateUserBalance (mergedUserId m) (mergedPayout m)
                                  (mergedDeposit m)) transaction
    = Returned tt transaction'.
Proof.
  induction merged as [| m rest IH]; intros transaction; cbn [forEach].
  - eexists; reflexivity.
  - unfold bind at 1. unfold updateUserBalance at 1. apply IH.
Qed.

Lemma payUsers_thrown (payouts : list (Payout num)) transaction e t' :
  payUsers payouts transaction = Thrown unit e t' ->
  checkPayouts payouts = Some e /\ t' = transaction.
Proof.
  unfold payUsers, bind.
  destruct (checkAndMergePayouts payouts) as [e0 | merged] eqn:Hc;
    cbn [liftE]; unfold throw, ret.
  - intros Heq. injection Heq as -> ->.
    split; [now apply checkAndMergePayouts_throws | reflexivity].
  - destruct (forEach_update_returns merged transaction) as [t'' Ht].
    rewrite Ht. discriminate.
Qed.

Lemma payUsers_throws (payouts : list (Payout num)) transaction :
  Exists nonFinite payouts ->
  exists e, payUsers payouts transaction = Thrown unit e transaction.
Proof.
  intros Hex. destruct (checkPayouts_throws Hex) as [e He].
  exists e. unfold payUsers, bind.
  apply checkAndMergePayouts_throws in He. rewrite He. reflexivity.
Qed.

Lemma payUser_thrown userId x isDeposit (firestore : Firestore num) e f' :
  payUser userId x isDeposit firestore = Thrown unit e f' ->
  nisFinite x = false /\ e = PayoutIsNotFinite x /\ f' = firestore.
Proof.
  unfold payUser. destruct (nisFinite x); cbn [negb].
  - unfold runTransaction, updateUserBalance. discriminate.
  - unfold throw. intros Heq. injection Heq as <- <-. auto.
Qed.

Lemma payUser_throws userId x isDeposit (firestore : Firestore num) :
  nisFinite x = false ->
  payUser userId x isDeposit firestore
  = Thrown unit (PayoutIsNotFinite x) firestore.
Proof.
  intros Hx. unfold payUser. rewrite Hx. reflexivity.
Qed.
End Generic.

End UtilsFacts.

(** C1.  [payUser] throws exactly when its payout is NaN or an infinity;
    [payUsers] throws as soon as one entry of the list has a payout, or a
    defined deposit, that is not finite; and whenever either of them throws,
    the store, respectively the transaction, holds the writes it held before:
    no balance update has been issued. *)
Theorem payouts_fail_closed
    (userId : string) (x : float) (isDeposit : bool)
    (firestore : Utils.Firestore float)
    (payouts : list (Utils.Payout float))
    (transaction : Utils.Transaction float) :
  ((exists e f', Utils.payUser userId x isDeposit firestore
                 = Utils.Thrown unit e f')
   <-> x = PrimFloat.nan \/ x = PrimFloat.infinity
       \/ x = PrimFloat.neg_infinity)
  /\ (forall e f', Utils.payUser userId x isDeposit firestore
                   = Utils.Thrown unit e f' -> f' = firestore)
  /\ (Exists Utils.nonFinite payouts ->
      exists e, Utils.payUsers payouts transaction
                = Utils.Thrown unit e transaction)
  /\ (forall e t', Utils.payUsers payouts transaction
                   = Utils.Thrown unit e t' -> t' = transaction).
Proof.
  repeat split.
  - intros (e & f' & Hthrown).
    apply UtilsFacts.payUser_thrown in Hthrown as (Hx & _).
    now apply isFinite_false_iff.
  - intros Hx. apply isFinite_false_iff in Hx.
    exists (Utils.PayoutIsNotFinite x), firestore.
    now apply UtilsFacts.payUser_throws.
  - intros e f' Hthrown.
    now apply UtilsFacts.payUser_thrown in Hthrown as (_ & _ & ->).
  - apply UtilsFacts.payUsers_throws.
  - intros e t' Hthrown.
    now apply UtilsFacts.payUsers_thrown in Hthrown as (_ & ->).
Qed.

(** ** Objects: enumeration and grouping *)

Module JSFacts.

Section Objects.
Context {A : Type}.

Lemma insertIndexed_perm i (kv : string * A) l :
  Permutation (JS.insertIndexed i kv l) ((i, kv) :: l).
Proof.
  induction l as [| [j x] r IH]; cbn [JS.insertIndexed].
  - reflexivity.
  - destruct (i <? j)%N; [reflexivity |].
    rewrite IH. apply perm_swap.
Qed.

(** Enumeration reorders the properties and loses none. *)
Lemma ownEntries_perm (o : JS.object A) : Permutation (JS.ownEntries o) o.
Proof.
  unfold JS.ownEntries.
  induction o as [| kv r IH]; cbn [JS.indexed JS.named filter].
  - reflexivity.
  - destruct (JS.arrayIndex (fst kv)) as [i |].
    + rewrite insertIndexed_perm. cbn [map snd app].
      now apply perm_skip.
    + symmetry. apply Permutation_cons_app. now symmetry.
Qed.
End Objects.

Lemma values_mapValues_perm {A B} (o : JS.object A) (f : A -> string -> B) :
  Permutation (JS.values (Lodash.mapValues o f))
              (map (fun kv => f (snd kv) (fst kv)) o).
Proof.
  unfold JS.values, Lodash.mapValues.
  rewrite ownEntries_perm, map_map. cbn [snd].
  apply Permutation_map, ownEntries_perm.
Qed.

End JSFacts.

Module LodashFacts.
Import Lodash Grouping.

Section GroupBy.
Context {A : Type} (iteratee : A -> string).

Lemma groupBy_snoc l v :
  Lodash.groupBy (l ++ [v]) iteratee
  = Lodash.assignGroup (iteratee v) v (Lodash.groupBy l iteratee).
Proof. unfold Lodash.groupBy. now rewrite fold_left_app. Qed.

Lemma keys_assignGroup key v (o : JS.object (list A)) k :
  In k (map fst (Lodash.assignGroup key v o)) <->
  k = key \/ In k (map fst o).
Proof.
  induction o as [| [k0 vs] rest IH]; cbn [Lodash.assignGroup map fst In].
  - intuition congruence.
  - destruct (String.eqb_spec k0 key) as [-> | Hne]; cbn [map fst In].
    + intuition congruence.
    + rewrite IH. intuition congruence.
Qed.

Lemma NoDup_assignGroup key v (o : JS.object (list A)) :
  NoDup (map fst o) -> NoDup (map fst (Lodash.assignGroup key v o)).
Proof.
  induction o as [| [k0 vs] rest IH]; cbn [Lodash.assignGroup map fst].
  - intros _. constructor; [intros [] | constructor].
  - intros Hnd. inversion Hnd as [| ? ? Hnotin Hrest]; subst.
    destruct (String.eqb_spec k0 key) as [-> | Hne]; cbn [map fst].
    + now constructor.
    + constructor; [| now apply IH].
      rewrite keys_assignGroup. intuition congruence.
Qed.

Lemma lookup_assignGroup key v (o : JS.object (list A)) k :
  lookup k (Lodash.assignGroup key v o) =
  if String.eqb key k then
    Some (match lookup key o with Some vs => vs | None => [] end ++ [v])
  else lookup k o.
Proof.
  induction o as [| [k0 vs] rest IH]; cbn [Lodash.assignGroup lookup].
  - destruct (String.eqb key k); reflexivity.
  - destruct (String.eqb_spec k0 key) as [-> | Hne]; cbn [lookup].
    + destruct (String.eqb key k); reflexivity.
    + rewrite IH.
      destruct (String.eqb_spec k0 k) as [-> | Hne'].
      * destruct (String.eqb_spec key k) as [-> | _]; congruence.
      * reflexivity.
Qed.

Lemma In_lookup (o : JS.object (list A)) k vs :
  NoDup (map fst o) -> (In (k, vs) o <-> lookup k o = Some vs).
Proof.
  induction o as [| [k0 vs0] rest IH]; cbn [map fst In lookup].
  - intuition discriminate.
  - intros Hnd. inversion Hnd as [| ? ? Hnotin Hrest]; subst.
    destruct (String.eqb_spec k0 k) as [-> | Hne].
    + split.
      * intros [Heq | Hin]; [congruence |].
        exfalso. apply Hnotin. now apply (in_map fst) in Hin.
      * intros Heq. left. congruence.
    + rewrite <- (IH Hrest). intuition congruence.
Qed.

Lemma NoDup_groupBy l : NoDup (map fst (Lodash.groupBy l iteratee)).
Proof.
  induction l as [| v l IH] using rev_ind.
  - constructor.
  - rewrite groupBy_snoc. now apply NoDup_assignGroup.
Qed.

Lemma keys_groupBy l k :
  In k (map fst (Lodash.groupBy l iteratee)) <-> In k (map iteratee l).
Proof.
  induction l as [| v l IH] using rev_ind.
  - reflexivity.
  - rewrite groupBy_snoc, keys_assignGroup, IH, map_app, in_app_iff.
    cbn [map In]. intuition congruence.
Qed.

Lemma lookup_groupBy l k :
  lookup k (Lodash.groupBy l iteratee) =
  match withKey iteratee k l with
  | [] => None
  | vs => Some vs
  end.
Proof.
  induction l as [| v l IH] using rev_ind.
  - reflexivity.
  - rewrite groupBy_snoc, lookup_assignGroup.
    unfold withKey in *. rewrite filter_app. cbn [filter].
    destruct (String.eqb_spec (iteratee v) k) as [<- | Hne].
    + rewrite IH.
      destruct (filter _ l) as [| x r]; reflexivity.
    + rewrite IH, app_nil_r. reflexivity.
Qed.

(** Each group holds, in order, the values that carry its key. *)
Lemma In_groupBy l k vs :
  In (k, vs) (Lodash.groupBy l iteratee) -> vs = withKey iteratee k l.
Proof.
  intros Hin. apply In_lookup in Hin; [| apply NoDup_groupBy].
  rewrite lookup_groupBy in Hin.
  destruct (withKey iteratee k l); congruence.
Qed.
End GroupBy.

End LodashFacts.

(** ** Merging payouts by user *)

Module MergeFacts.
Import Utils Lodash Grouping.

Section Generic.
Context {num : Type} `{Number num}.

(** The merged list, up to the order of enumeration. *)
Lemma merged_perm (payouts : list (Payout num)) :
  Permutation
    (JS.values (Lodash.mapValues (Lodash.groupBy payouts (@Utils.userId num))
                                 mergeGroup))
    (map (fun kv => mergeGroup (snd kv) (fst kv))
         (Lodash.groupBy payouts (@Utils.userId num))).
Proof. apply JSFacts.values_mapValues_perm. Qed.

Lemma merged_users (payouts : list (Payout num)) :
  map (@mergedUserId num)
      (map (fun kv => mergeGroup (snd kv) (fst kv))
           (Lodash.groupBy payouts (@Utils.userId num)))
  = map fst (Lodash.groupBy payouts (@Utils.userId num)).
Proof. rewrite map_map. reflexivity. Qed.

Section Totals.
Hypothesis exactly : exact_addition.

Lemma total_nil {A} (f : A -> num) : total f [] = n0.
Proof. reflexivity. Qed.

Lemma total_cons {A} (f : A -> num) (x : A) (l : list A) :
  total f (x :: l) = (f x + total f l)%js.
Proof. reflexivity. Qed.

Lemma fold_left_total {A} (f : A -> num) (l : list A) (a : num) :
  fold_left (fun result y => (result + f y)%js) l a = (a + total f l)%js.
Proof.
  destruct exactly as (Hcomm & Hassoc & Hzero).
  revert a. induction l as [| x r IH]; intros a; cbn [fold_left].
  - now rewrite total_nil, Hcomm, Hzero.
  - now rewrite IH, total_cons, Hassoc.
Qed.

Lemma sumBy_total {A} (f : A -> num) (l : list A) :
  Lodash.sumBy l f = total f l.
Proof.
  destruct l as [| x r]; [reflexivity |].
  unfold Lodash.sumBy. now rewrite fold_left_total.
Qed.

Lemma total_app {A} (f : A -> num) (l1 l2 : list A) :
  total f (l1 ++ l2) = (total f l1 + total f l2)%js.
Proof.
  destruct exactly as (Hcomm & Hassoc & Hzero).
  induction l1 as [| x r IH]; cbn [app].
  - now rewrite total_nil, Hzero.
  - now rewrite !total_cons, IH, Hassoc.
Qed.

Lemma total_snoc {A} (f : A -> num) (l : list A) (x : A) :
  total f (l ++ [x]) = (total f l + f x)%js.
Proof.
  destruct exactly as (Hcomm & Hassoc & Hzero).
  now rewrite total_app, total_cons, total_nil, (Hcomm (f x) n0), Hzero.
Qed.

Lemma total_perm {A} (f : A -> num) (l1 l2 : list A) :
  Permutation l1 l2 -> total f l1 = total f l2.
Proof.
  destruct exactly as (Hcomm & Hassoc & Hzero).
  induction 1 as [| x l l' _ IH | x y l | l l' l'' _ IH1 _ IH2].
  - reflexivity.
  - now rewrite !total_cons, IH.
  - now rewrite !total_cons, !Hassoc, (Hcomm (f y) (f x)).
  - congruence.
Qed.

Lemma groupsTotal_assignGroup {A} (f : A -> num) key v
    (o : JS.object (list A)) :
  groupsTotal f (Lodash.assignGroup key v o) = (groupsTotal f o + f v)%js.
Proof.
  pose proof exactly as (Hcomm & Hassoc & Hzero).
  unfold groupsTotal.
  induction o as [| [k vs] rest IH]; cbn [Lodash.assignGroup].
  - rewrite total_cons. cbn [snd].
    now rewrite total_cons, !total_nil, !(Hcomm _ n0), !Hzero.
  - destruct (String.eqb k key); rewrite !total_cons; cbn [snd].
    + rewrite total_snoc, <- !Hassoc. f_equal. apply Hcomm.
    + now rewrite IH, Hassoc.
Qed.

Lemma groupsTotal_groupBy {A} (f : A -> num) (iteratee : A -> string) l :
  groupsTotal f (Lodash.groupBy l iteratee) = total f l.
Proof.
  induction l as [| v l IH] using rev_ind.
  - reflexivity.
  - now rewrite LodashFacts.groupBy_snoc, groupsTotal_assignGroup, IH,
      total_snoc.
Qed.

(** With exact addition, merging keeps the total paid out. *)
Lemma merged_total (payouts : list (Payout num)) :
  Lodash.sumBy
    (JS.values (Lodash.mapValues (Lodash.groupBy payouts (@Utils.userId num))
                                 mergeGroup))
    (@mergedPayout num)
  = Lodash.sumBy payouts (@payout num).
Proof.
  rewrite !sumBy_total, (total_perm _ (merged_perm payouts)).
  rewrite <- (groupsTotal_groupBy (@payout num) (@Utils.userId num) payouts).
  unfold groupsTotal.
  induction (Lodash.groupBy payouts (@Utils.userId num)) as [| kv o IH];
    cbn [map].
  - reflexivity.
  - rewrite !total_cons, IH. cbn [mergeGroup mergedPayout].
    now rewrite sumBy_total.
Qed.
End Totals.

End Generic.

(** Addition of rationals is exact. *)
Lemma exact_addition_Q : exact_addition (num := Q).
Proof.
  repeat split; cbn [nadd n0 exact].
  - intros [a b] [c d]. unfold Qplus; cbn [Qnum Qden].
    f_equal; [lia | apply Pos.mul_comm].
  - intros [a b] [c d] [e f]. unfold Qplus; cbn [Qnum Qden].
    f_equal; [rewrite !Pos2Z.inj_mul; ring | apply Pos.mul_assoc].
  - intros [a b]. unfold Qplus; cbn [Qnum Qden].
    f_equal. lia.
Qed.

End MergeFacts.

Lemma unevenPayouts_finite : Forall Utils.allFinite unevenPayouts.
Proof.
  repeat constructor; try reflexivity; intros d Hd; discriminate Hd.
Qed.

(** C8, as the code has it.  When every payout and every defined deposit is
    finite, [checkAndMergePayouts] returns one entry for each user of the
    list and no other; the entry's payout is [sumBy] of that user's payouts
    in list order, and its deposit [sumBy] of that user's deposits, a missing
    one counting as [0].  When addition is exact the merged payouts add up to
    what the payouts of the list add up to. *)
Theorem checkAndMergePayouts_merges {num : Type} `{Number num}
    (payouts : list (Utils.Payout num)) :
  Forall Utils.allFinite payouts ->
  exists merged,
    Utils.checkAndMergePayouts payouts = inr merged
    /\ NoDup (map (@Utils.mergedUserId num) merged)
    /\ (forall user,
          In user (map (@Utils.mergedUserId num) merged)
          <-> In user (map (@Utils.userId num) payouts))
    /\ (forall m, In m merged ->
          Utils.mergedPayout m
          = Lodash.sumBy (Utils.payoutsOf (Utils.mergedUserId m) payouts)
                         (@Utils.payout num)
          /\ Utils.mergedDeposit m
             = Lodash.sumBy
                 (Utils.payoutsOf (Utils.mergedUserId m) payouts)
                 (@Utils.depositOrZero num _))
    /\ (exact_addition (num := num) ->
        Lodash.sumBy merged (@Utils.mergedPayout num)
        = Lodash.sumBy payouts (@Utils.payout num)).
Proof.
  intros Hfinite. apply UtilsFacts.checkPayouts_passes in Hfinite.
  unfold Utils.checkAndMergePayouts. rewrite Hfinite.
  eexists. split; [reflexivity |].
  pose proof (MergeFacts.merged_perm payouts) as Hperm.
  pose proof (Permutation_map (@Utils.mergedUserId num) Hperm) as Husers.
  rewrite MergeFacts.merged_users in Husers.
  split; [| split; [| split]].
  - apply (Permutation_NoDup (Permutation_sym Husers)).
    apply LodashFacts.NoDup_groupBy.
  - intros user. split; intros Hin.
    + apply (Permutation_in _ Husers) in Hin.
      exact (proj1 (LodashFacts.keys_groupBy _ _ _) Hin).
    + apply (Permutation_in _ (Permutation_sym Husers)).
      exact (proj2 (LodashFacts.keys_groupBy _ _ _) Hin).
  - intros m Hm. apply (Permutation_in _ Hperm) in Hm.
    apply in_map_iff in Hm as ([k vs] & <- & Hin).
    apply LodashFacts.In_groupBy in Hin. subst vs. split; reflexivity.
  - intros Hexact. now apply MergeFacts.merged_total.
Qed.

Lemma checkAndMergePayouts_merges_witness :
  exists merged,
    Utils.checkAndMergePayouts unevenPayouts = inr merged
    /\ NoDup (map (@Utils.mergedUserId float) merged).
Proof.
  destruct (checkAndMergePayouts_merges unevenPayouts_finite)
    as (merged & Hmerged & Hnodup & _).
  exists merged. split; assumption.
Defined.

(** On binary64 the merged payouts of [unevenPayouts] add up to [0.6] and the
    payouts of the list to [0.6000000000000001]. *)
Lemma merged_total_rounds :
  Forall Utils.allFinite unevenPayouts
  /\ exists merged,
       Utils.checkAndMergePayouts unevenPayouts = inr merged
       /\ Lodash.sumBy merged (@Utils.mergedPayout float) = 0.6%float
       /\ Lodash.sumBy unevenPayouts (@Utils.payout float)
          = 0.6000000000000001%float
       /\ PrimFloat.eqb (Lodash.sumBy merged (@Utils.mergedPayout float))
                        (Lodash.sumBy unevenPayouts (@Utils.payout float))
          = false.
Proof.
  split; [exact unevenPayouts_finite |].
  eexists. split; [vm_compute; reflexivity |].
  repeat split; vm_compute; reflexivity.
Qed.

Lemma payouts_fail_closed_witness :
  exists e,
    Utils.payUsers
      (unevenPayouts
       ++ [ {| Utils.userId := "carol"; Utils.payout := PrimFloat.infinity;
               Utils.deposit := None |} ]) []
    = Utils.Thrown unit e [].
Proof.
  apply (payouts_fail_closed "carol" PrimFloat.infinity false [] _ []).
  apply Exists_exists. eexists. split.
  - apply in_or_app. right. left. reflexivity.
  - left. reflexivity.
Defined.

(** ** The bet-list filters *)

Module BetsListFacts.
Import BetsList.

(** Nothing lies above [Infinity]. *)
Lemma ltb_infinity (x : float) : PrimFloat.ltb PrimFloat.infinity x = false.
Proof.
  rewrite ltb_spec.
  change (Prim2SF PrimFloat.infinity) with (S754_infinity false).
  unfold SFltb, SFcompare.
  destruct (Prim2SF x) as [s | s | | s m e]; try reflexivity;
    destruct s; reflexivity.
Qed.

Lemma closed_iff (now : float) (c : Contract float) :
  FILTERS now closed c = true <->
  FILTERS now resolved c = false
  /\ exists t, closeTime c = Some t /\ PrimFloat.ltb t now = true.
Proof.
  cbn [FILTERS]. unfold FILTERS_closed.
  destruct (FILTERS_resolved c); cbn [negb andb].
  - split; [discriminate | intros [Hr _]; discriminate].
  - destruct (closeTime c) as [t |].
    + split; [intros Hlt; eauto | intros (_ & t' & Ht' & Hlt); congruence].
    + rewrite ltb_infinity.
      split; [discriminate | intros (_ & t' & Ht' & _); discriminate].
Qed.

End BetsListFacts.

(** C10.  At a fixed time, exactly one of the filters [resolved], [closed]
    and [open] accepts a contract.  [resolved] accepts the contracts whose
    [resolutionTime] is set (to a truthy number); [closed] those that are not
    resolved and whose [closeTime] is set and lies before the current time, so
    that a contract without [closeTime] is never closed; [open] the others. *)
Theorem FILTERS_partition (now : float) (c : Contract float) :
  let isResolved := BetsList.FILTERS now BetsList.resolved c in
  let isClosed := BetsList.FILTERS now BetsList.closed c in
  let isOpen := BetsList.FILTERS now BetsList.open c in
  ((isResolved = true /\ isClosed = false /\ isOpen = false)
   \/ (isResolved = false /\ isClosed = true /\ isOpen = false)
   \/ (isResolved = false /\ isClosed = false /\ isOpen = true))
  /\ isResolved = truthy_opt (resolutionTime c)
  /\ (isClosed = true <->
      isResolved = false
      /\ exists t, closeTime c = Some t /\ PrimFloat.ltb t now = true)
  /\ (closeTime c = None -> isClosed = false)
  /\ isOpen = negb (isClosed || isResolved).
Proof.
  cbv zeta. split; [| split; [| split; [| split]]].
  - cbn [BetsList.FILTERS].
    unfold BetsList.FILTERS_open, BetsList.FILTERS_closed.
    destruct (BetsList.FILTERS_resolved c); cbn [negb andb orb]; [tauto |].
    destruct (PrimFloat.ltb _ now); cbn [negb orb]; tauto.
  - reflexivity.
  - apply BetsListFacts.closed_iff.
  - intros Hnone. cbn [BetsList.FILTERS]. unfold BetsList.FILTERS_closed.
    rewrite Hnone, BetsListFacts.ltb_infinity. apply andb_false_r.
  - reflexivity.
Qed.

(** ** binary64 comparisons *)

Module F64Facts.






End F64Facts.

(** ** The limit-order panel *)

Module BetPanelFacts.
Import BetPanel.

Section Generic.
Context {num : Type} `{Number num}.

(** [clamp] returns its argument or a bound, and the result lies between the
    bounds, whenever the argument is a number and the bounds are ordered. *)
Lemma clamp_range (x lower upper : num) :
  nisNaN x = false ->
  (lower <=? upper)%js = true ->
  (lower <=? lower)%js = true ->
  (upper <=? upper)%js = true ->
  (lower <=? Lodash.clamp x lower upper)%js = true
  /\ (Lodash.clamp x lower upper <=? upper)%js = true.
Proof.
  unfold nisNaN, Lodash.clamp. intros Hnum Hlu Hll Huu.
  apply negb_false_iff in Hnum. rewrite Hnum.
  destruct (x <=? upper)%js eqn:Hxu.
  - destruct (lower <=? x)%js eqn:Hlx; auto.
  - rewrite Hlu. auto.
Qed.



End Generic.

End BetPanelFacts.

Module LimitFacts.
Import BetPanel.


(** Over the rationals a limit probability lies between [1/1000] and
    [999/1000]. *)
Lemma clamp_exact (x : Q) :
  (1 # 1000 <= Lodash.clamp x n0_001 n0_999 <= 999 # 1000)%Q.
Proof.
  destruct (@BetPanelFacts.clamp_range Q _ x n0_001 n0_999) as [Hlo Hhi];
    try reflexivity.
  - unfold nisNaN. cbn [neqb exact]. now rewrite Qeq_bool_refl.
  - cbn [nleb exact n0_001 n0_999] in Hlo, Hhi.
    apply Qle_bool_iff in Hlo, Hhi. split; assumption.
Qed.

Lemma limit_amounts_exact (s : State Q) (a l h : Q) :
  betAmount s = Some a -> (0 <= a)%Q ->
  lowLimitProb s = Some l -> highLimitProb s = Some h ->
  (yesAmount s <= a)%Q /\ (noAmount s <= a)%Q.
Proof.
  intros Ha Hpos Hl Hh.
  unfold yesAmount, noAmount, sharesOf, amountOf, yesLimitProb, noLimitProb,
    limitProbOf.
  rewrite Ha, Hl, Hh.
  pose proof (clamp_exact (l / n100)%js) as [Hy1 Hy2].
  pose proof (clamp_exact (h / n100)%js) as [Hn1 Hn2].
  set (y := Lodash.clamp (l / n100)%js n0_001 n0_999) in *.
  set (n := Lodash.clamp (h / n100)%js n0_001 n0_999) in *.
  cbn [nmin nmul ndiv nsub n1 exact].
  split.
  - apply Qle_trans with ((a / y) * y)%Q.
    + apply Qmult_le_compat_r; [apply Q.le_min_l | lra].
    + rewrite Qmult_comm, Qmult_div_r; [apply Qle_refl | lra].
  - apply Qle_trans with ((a / (1 - n)) * (1 - n))%Q.
    + apply Qmult_le_compat_r; [apply Q.le_min_r | lra].
    + rewrite Qmult_comm, Qmult_div_r; [apply Qle_refl | lra].
Qed.


End LimitFacts.

(** ** Limit orders as a state machine *)

Module OrderFacts.
Import Core.











Lemma terminal_closed {num} `{Number num} (o : Bet num) :
  orderState o = Filled \/ orderState o = Cancelled -> isOpen o = false.
Proof.
  unfold orderState, isOpen.
  destruct (isCancelled o), (isFilled o); cbn [negb];
    rewrite ?andb_false_r; try reflexivity.
  destruct (fills o); intros [? | ?]; discriminate.
Qed.


Lemma terminal_stuck {num} `{Number num} (o o' : Bet num) :
  orderState o = Filled \/ orderState o = Cancelled -> ~ step o o'.
Proof.
  intros Hterm Hstep. apply terminal_closed in Hterm.
  destruct Hstep as [o1 o2 Hfill | o1 Hopen]; [| congruence].
  destruct Hfill as [requested fillShares taker time o1 Hopen _]. congruence.
Qed.

End OrderFacts.



(** ** Settlement of a cancelled market *)

(** C2.  On a contract resolved to CANCEL the payout of a bet is the amount
    wagered, whatever its shares and its outcome: two bets of the same
    amount are paid the same. *)
Theorem cancel_refunds_amount {num : Type} `{Number num}
    (contract : Contract num) (bet : Bet num) :
  resolution contract = Some ResolveCANCEL ->
  Core.payout contract bet = Some (amount bet)
  /\ (forall bet', amount bet' = amount bet ->
        Core.payout contract bet' = Core.payout contract bet).
Proof.
  intros Hcancel. unfold Core.payout. rewrite Hcancel.
  split; [reflexivity | intros bet' Hamount; now rewrite Hamount].
Qed.

Lemma cancel_refunds_amount_witness :
  Core.payout cancelledContract yesBet = Some 25%float.
Proof.
  exact (proj1 (@cancel_refunds_amount float _ cancelledContract yesBet
                  eq_refl)).
Defined.

(** ** Submitting limit orders *)




(** ** Prices and limit probabilities *)




(** ** Amounts of a range order *)

(** C9, in exact arithmetic.  With an amount that is not negative and both
    limits set, the amount of the YES order and the amount of the NO order
    are at most the amount entered. *)
Theorem limit_amounts_within_max (s : BetPanel.State Q) (a low high : Q) :
  BetPanel.betAmount s = Some a -> (0 <= a)%Q ->
  BetPanel.lowLimitProb s = Some low ->
  BetPanel.highLimitProb s = Some high ->
  (BetPanel.yesAmount s <= a)%Q /\ (BetPanel.noAmount s <= a)%Q.
Proof. apply LimitFacts.limit_amounts_exact. Qed.

Lemma limit_amounts_within_max_witness :
  (BetPanel.yesAmount rangeOrderExact <= 10)%Q
  /\ (BetPanel.noAmount rangeOrderExact <= 10)%Q.
Proof.
  apply (@limit_amounts_within_max rangeOrderExact 10%Q 1%Q 46%Q);
    try reflexivity.
  discriminate.
Defined.

(** On binary64 the NO order of [rangeOrder], entered with a maximum of 10
    and limits 1% and 46%, is for 10.000000000000002. *)
Lemma noAmount_exceeds_max :
  BetPanel.betAmount rangeOrder = Some 10%float
  /\ BetPanel.betDisabled rangeOrder = false
  /\ BetPanel.yesLimitProb rangeOrder = Some 0.01%float
  /\ BetPanel.noLimitProb rangeOrder = Some 0.46%float
  /\ BetPanel.noAmount rangeOrder = 10.000000000000002%float
  /\ PrimFloat.leb (BetPanel.noAmount rangeOrder) 10 = false.
Proof. repeat split; vm_compute; reflexivity. Qed.


(** * More properties of the code *)

(** ** [chunk] *)

Module ChunkFacts.
Import LodashArrays.

Section Chunks.
Context {A : Type}.

Lemma chunkLoop_fuel (size : nat) :
  (1 <= size)%nat ->
  forall fuel fuel' (array : list A),
    (List.length array <= fuel)%nat -> (List.length array <= fuel')%nat ->
    chunkLoop fuel array size = chunkLoop fuel' array size.
Proof.
  intros Hsize. induction fuel as [| fuel IH]; intros fuel' array Hf Hf'.
  - destruct array; [| cbn in Hf; lia]. destruct fuel'; reflexivity.
  - destruct array as [| x r]; [destruct fuel'; reflexivity |].
    destruct fuel' as [| fuel']; [cbn in Hf'; lia |].
    cbn [chunkLoop]. f_equal.
    assert (Hlen : (List.length (skipn size (x :: r)) <= List.length r)%nat).
    { rewrite length_skipn. cbn [List.length]. lia. }
    cbn [List.length] in Hf, Hf'. apply IH; lia.
Qed.

Lemma chunk_nil (size : nat) : chunk (@nil A) size = [].
Proof. unfold chunk. destruct (size <? 1)%nat; reflexivity. Qed.

Lemma chunk_zero (array : list A) : chunk array 0 = [].
Proof. reflexivity. Qed.

(** The first chunk and the chunks of what follows it. *)
Lemma chunk_cons (size : nat) (array : list A) :
  (1 <= size)%nat -> array <> [] ->
  chunk array size = firstn size array :: chunk (skipn size array) size.
Proof.
  intros Hsize Hne. unfold chunk.
  destruct (Nat.ltb_spec size 1) as [Hlt | _]; [lia |].
  destruct array as [| x r]; [congruence |].
  cbn [List.length chunkLoop]. f_equal.
  apply chunkLoop_fuel; [assumption | | lia].
  rewrite length_skipn. cbn [List.length]. lia.
Qed.

(** Induction on an array, one chunk at a time. *)
Lemma chunk_ind (size : nat) (Hsize : (1 <= size)%nat)
    (P : list A -> Prop) :
  P [] ->
  (forall array, array <> [] -> P (skipn size array) -> P array) ->
  forall array, P array.
Proof.
  intros Hnil Hstep array.
  remember (List.length array) as n eqn:Hn.
  revert array Hn. induction n as [n IH] using lt_wf_ind. intros array Hn.
  destruct array as [| x r]; [exact Hnil |].
  apply Hstep; [discriminate |].
  apply (IH (List.length (skipn size (x :: r)))); [| reflexivity].
  rewrite length_skipn. subst n. cbn [List.length]. lia.
Qed.

(** Chunking loses nothing and keeps the order. *)
Lemma concat_chunk (size : nat) (array : list A) :
  (1 <= size)%nat -> List.concat (chunk array size) = array.
Proof.
  intros Hsize. induction array as [| array Hne IH] using (chunk_ind Hsize).
  - now rewrite chunk_nil.
  - rewrite (chunk_cons Hsize Hne). cbn [List.concat].
    rewrite IH. apply firstn_skipn.
Qed.

(** No chunk is empty and none is longer than the size. *)
Lemma chunk_sizes (size : nat) (array : list A) :
  (1 <= size)%nat ->
  Forall (fun c => (1 <= List.length c <= size)%nat) (chunk array size).
Proof.
  intros Hsize. induction array as [| array Hne IH] using (chunk_ind Hsize).
  - rewrite chunk_nil. constructor.
  - rewrite (chunk_cons Hsize Hne). constructor; [| exact IH].
    rewrite length_firstn. destruct array; [congruence |].
    cbn [List.length]. lia.
Qed.

(** The chunk of index [i] starts at offset [i * size]. *)
Lemma chunk_nth (size : nat) (array : list A) :
  (1 <= size)%nat ->
  forall i c, nth_error (chunk array size) i = Some c ->
    c = firstn size (skipn (i * size) array)
    /\ (i * size < List.length array)%nat.
Proof.
  intros Hsize. induction array as [| array Hne IH] using (chunk_ind Hsize);
    intros i c Hnth.
  - rewrite chunk_nil in Hnth. destruct i; discriminate.
  - rewrite (chunk_cons Hsize Hne) in Hnth. destruct i as [| i].
    + cbn in Hnth. injection Hnth as <-. split; [reflexivity |].
      destruct array; [congruence | cbn; lia].
    + cbn [nth_error] in Hnth. apply IH in Hnth as [-> Hlt].
      rewrite skipn_skipn, length_skipn in *. split.
      * f_equal. f_equal. lia.
      * lia.
Qed.

(** The chunks before index [i] hold [i * size] elements. *)
Lemma chunk_offset (size : nat) (array : list A) :
  (1 <= size)%nat ->
  forall i, (i < List.length (chunk array size))%nat ->
    List.length (List.concat (firstn i (chunk array size))) = (i * size)%nat.
Proof.
  intros Hsize. induction array as [| array Hne IH] using (chunk_ind Hsize);
    intros i Hi.
  - rewrite chunk_nil in Hi. cbn in Hi. lia.
  - destruct i as [| i]; [reflexivity |].
    pose proof (chunk_nth array Hsize (S i)) as Hnth.
    rewrite (chunk_cons Hsize Hne) in Hi, Hnth |- *.
    cbn [List.length] in Hi. cbn [firstn List.concat].
    rewrite length_app, IH by lia.
    destruct (nth_error (firstn size array :: chunk (skipn size array) size)
                        (S i)) as [c |] eqn:Hc.
    + destruct (Hnth c eq_refl) as [_ Hlt].
      rewrite length_firstn. lia.
    + apply nth_error_None in Hc. cbn [List.length] in Hc. lia.
Qed.
End Chunks.

End ChunkFacts.

(** ** Paying users *)

Module PayFacts.
Import Utils UtilsMore.

Section Generic.
Context {num : Type} `{Number num}.

(** The update loop appends one update per merged entry. *)
Lemma forEach_update (merged : list (MergedPayout num)) :
  forall transaction,
    forEach merged
      (fun m => updateUserBalance (mergedUserId m) (mergedPayout m)
                                  (mergedDeposit m)) transaction
    = Returned tt (transaction ++ map updateOf merged).
Proof.
  induction merged as [| m rest IH]; intros transaction; cbn [forEach map].
  - unfold ret. now rewrite app_nil_r.
  - unfold bind at 1. unfold updateUserBalance at 1.
    rewrite IH, <- app_assoc. reflexivity.
Qed.

(** The writes of a transaction are those that [Utils.runTransaction]
    commits to the store of all writes. *)
Lemma runTransaction_writes {A} (body : M (Transaction num) A)
    (ledger : Ledger) (a : A) (writes : Transaction num) :
  body [] = Returned a writes ->
  runTransaction body ledger = Returned a (ledger ++ [writes])
  /\ Utils.runTransaction body (List.concat ledger)
     = Returned a (List.concat (ledger ++ [writes])).
Proof.
  intros Hbody. unfold runTransaction, Utils.runTransaction. rewrite Hbody.
  split; [reflexivity |].
  rewrite concat_app. cbn [List.concat]. now rewrite app_nil_r.
Qed.

(** Every chunk is committed as a transaction of its own. *)
Lemma forEach_transactions (chunks : list (list (MergedPayout num))) :
  forall ledger : Ledger,
    forEach chunks (fun payoutChunk =>
      runTransaction
        (forEach payoutChunk (fun m =>
           updateUserBalance (mergedUserId m) (mergedPayout m)
                             (mergedDeposit m)))) ledger
    = Returned tt (ledger ++ map (map updateOf) chunks).
Proof.
  induction chunks as [| c rest IH]; intros ledger; cbn [forEach map].
  - unfold ret. now rewrite app_nil_r.
  - unfold bind at 1. unfold runTransaction at 1.
    rewrite forEach_update. cbn [app].
    rewrite IH, <- app_assoc. reflexivity.
Qed.

Lemma userDoc_inj (a b : string) :
  ("users/" ++ a)%string = ("users/" ++ b)%string -> a = b.
Proof. cbn. intros Heq. now injection Heq. Qed.

Lemma NoDup_map_inj {A B} (f : A -> B) (l : list A) :
  (forall a b, f a = f b -> a = b) -> NoDup l -> NoDup (map f l).
Proof.
  intros Hinj. induction 1 as [| x l Hx _ IH]; cbn [map]; constructor.
  - intros Hin. apply in_map_iff in Hin as (y & Heq & Hy).
    apply Hinj in Heq. now subst y.
  - exact IH.
Qed.

(** What a list with finite entries merges to. *)
Lemma merged_of_finite (payouts : list (Payout num)) :
  Forall allFinite payouts ->
  exists merged,
    checkAndMergePayouts payouts = inr merged
    /\ Permutation merged
         (map (fun kv => mergeGroup (snd kv) (fst kv))
              (Lodash.groupBy payouts (@Utils.userId num))).
Proof.
  intros Hfinite. apply UtilsFacts.checkPayouts_passes in Hfinite.
  unfold checkAndMergePayouts. rewrite Hfinite.
  eexists. split; [reflexivity | apply MergeFacts.merged_perm].
Qed.

(** The first entry that is not finite, with the entries before it. *)
Lemma checkPayouts_first (payouts : list (Payout num)) e :
  checkPayouts payouts = Some e ->
  exists before q after,
    payouts = before ++ q :: after
    /\ Forall allFinite before
    /\ ((nisFinite (payout q) = false /\ e = PayoutIsNotFinite (payout q))
        \/ (nisFinite (payout q) = true
            /\ exists d, deposit q = Some d /\ nisFinite d = false
                         /\ e = DepositIsNotFinite d)).
Proof.
  induction payouts as [| q rest IH]; cbn [checkPayouts]; [discriminate |].
  destruct (nisFinite (payout q)) eqn:Hp; cbn [negb].
  - destruct (deposit q) as [d |] eqn:Hd.
    + destruct (nisFinite d) eqn:Hfd; cbn [negb].
      * intros Hrest. destruct (IH Hrest) as (b & q' & a & -> & Hb & Hq').
        exists (q :: b), q', a. split; [reflexivity |]. split; [| exact Hq'].
        constructor; [| exact Hb]. split; [exact Hp |].
        intros d' Hd'. congruence.
      * intros Heq. injection Heq as <-.
        exists [], q, rest. split; [reflexivity |]. split; [constructor |].
        right. split; [exact Hp |]. eauto.
    + intros Hrest. destruct (IH Hrest) as (b & q' & a & -> & Hb & Hq').
      exists (q :: b), q', a. split; [reflexivity |]. split; [| exact Hq'].
      constructor; [| exact Hb]. split; [exact Hp |].
      intros d' Hd'. congruence.
  - intros Heq. injection Heq as <-.
    exists [], q, rest. split; [reflexivity |]. split; [constructor |].
    left. auto.
Qed.
End Generic.

End PayFacts.

(** X1.  With finite entries, [payUsers] keeps the writes that the
    transaction holds and adds one update for each user of the list, and
    no user is updated twice; the update of a user increments the balance
    by the sum of the user's payouts and the deposits by the sum of the
    user's deposits. *)
Theorem payUsers_updates_each_user_once {num : Type} `{Number num}
    (payouts : list (Utils.Payout num))
    (transaction : Utils.Transaction num) :
  Forall Utils.allFinite payouts ->
  exists writes,
    Utils.payUsers payouts transaction
    = Utils.Returned tt (transaction ++ writes)
    /\ NoDup (map (@Utils.userDoc num) writes)
    /\ (forall user,
          In ("users/" ++ user)%string (map (@Utils.userDoc num) writes)
          <-> In user (map (@Utils.userId num) payouts))
    /\ (forall w, In w writes ->
          exists user,
            Utils.userDoc w = ("users/" ++ user)%string
            /\ Utils.balanceIncrement w
               = Lodash.sumBy (Utils.payoutsOf user payouts)
                              (@Utils.payout num)
            /\ Utils.totalDepositsIncrement w
               = Lodash.sumBy (Utils.payoutsOf user payouts)
                              (@Utils.depositOrZero num _)).
Proof.
  intros Hfinite.
  destruct (PayFacts.merged_of_finite Hfinite) as (merged & Hmerged & Hperm).
  exists (map UtilsMore.updateOf merged).
  assert (Hdocs : forall l : list (Utils.MergedPayout num),
            map (@Utils.userDoc num) (map UtilsMore.updateOf l)
            = map (fun u => ("users/" ++ u)%string)
                  (map (@Utils.mergedUserId num) l)).
  { intros l. rewrite !map_map. reflexivity. }
  pose proof (Permutation_map (@Utils.mergedUserId num) Hperm) as Husers.
  rewrite MergeFacts.merged_users in Husers.
  split; [| split; [| split]].
  - unfold Utils.payUsers, Utils.bind. rewrite Hmerged. cbn [Utils.liftE].
    unfold Utils.ret. apply PayFacts.forEach_update.
  - rewrite Hdocs. apply PayFacts.NoDup_map_inj.
    + intros a b. apply PayFacts.userDoc_inj.
    + apply (Permutation_NoDup (Permutation_sym Husers)).
      apply LodashFacts.NoDup_groupBy.
  - intros user. rewrite Hdocs, in_map_iff. split.
    + intros (u & Heq & Hin). apply PayFacts.userDoc_inj in Heq. subst u.
      apply (Permutation_in _ Husers) in Hin.
      exact (proj1 (LodashFacts.keys_groupBy _ _ _) Hin).
    + intros Hin. exists user. split; [reflexivity |].
      apply (Permutation_in _ (Permutation_sym Husers)).
      exact (proj2 (LodashFacts.keys_groupBy _ _ _) Hin).
  - intros w Hw. apply in_map_iff in Hw as (m & <- & Hm).
    apply (Permutation_in _ Hperm) in Hm.
    apply in_map_iff in Hm as ([k vs] & <- & Hin).
    apply LodashFacts.In_groupBy in Hin. subst vs.
    exists k. repeat split; reflexivity.
Qed.

Lemma payUsers_updates_each_user_once_witness :
  exists writes,
    Utils.payUsers unevenPayouts [] = Utils.Returned tt ([] ++ writes)
    /\ NoDup (map (@Utils.userDoc float) writes).
Proof.
  destruct (@payUsers_updates_each_user_once float _ unevenPayouts []
              unevenPayouts_finite) as (writes & Hrun & Hnodup & _).
  exists writes. split; assumption.
Defined.

(** X2.  With finite entries and transactions that commit,
    [payUsersMultipleTransactions] commits one transaction for each chunk
    of the merged entries, after those that the store holds: every
    transaction holds at least 1 and at most 500 updates, and the
    transactions, one after the other, hold the updates that [payUsers]
    issues in a single transaction, in the same order.  With an entry that
    is not finite it throws and commits nothing. *)
Theorem payUsersMultipleTransactions_commits {num : Type} `{Number num}
    (payouts : list (Utils.Payout num)) (ledger : @UtilsMore.Ledger num)
    (transaction : Utils.Transaction num) :
  (Forall Utils.allFinite payouts ->
   exists merged committed,
     Utils.checkAndMergePayouts payouts = inr merged
     /\ UtilsMore.payUsersMultipleTransactions payouts ledger
        = Utils.Returned tt (ledger ++ committed)
     /\ committed
        = map (map UtilsMore.updateOf) (LodashArrays.chunk merged 500)
     /\ Forall (fun t => (1 <= List.length t <= 500)%nat) committed
     /\ Utils.payUsers payouts transaction
        = Utils.Returned tt (transaction ++ List.concat committed))
  /\ (Exists Utils.nonFinite payouts ->
      exists e, UtilsMore.payUsersMultipleTransactions payouts ledger
                = Utils.Thrown unit e ledger).
Proof.
  split.
  - intros Hfinite.
    destruct (PayFacts.merged_of_finite Hfinite) as (merged & Hmerged & _).
    exists merged, (map (map UtilsMore.updateOf)
                        (LodashArrays.chunk merged 500)).
    split; [exact Hmerged |].
    assert (H500 : (1 <= 500)%nat) by lia.
    split; [| split; [reflexivity | split]].
    + unfold UtilsMore.payUsersMultipleTransactions, Utils.bind.
      rewrite Hmerged. cbn [Utils.liftE]. unfold Utils.ret.
      apply PayFacts.forEach_transactions.
    + apply Forall_map.
      eapply Forall_impl; [| apply (ChunkFacts.chunk_sizes merged H500)].
      intros c Hlen. now rewrite length_map.
    + unfold Utils.payUsers, Utils.bind. rewrite Hmerged. cbn [Utils.liftE].
      unfold Utils.ret. rewrite PayFacts.forEach_update.
      rewrite <- concat_map.
      now rewrite (ChunkFacts.concat_chunk merged H500).
  - intros Hex. destruct (UtilsFacts.checkPayouts_throws Hex) as [e He].
    exists e. unfold UtilsMore.payUsersMultipleTransactions, Utils.bind.
    apply UtilsFacts.checkAndMergePayouts_throws in He. rewrite He.
    reflexivity.
Qed.

Lemma payUsersMultipleTransactions_commits_witness :
  exists merged committed,
    Utils.checkAndMergePayouts unevenPayouts = inr merged
    /\ UtilsMore.payUsersMultipleTransactions unevenPayouts []
       = Utils.Returned tt ([] ++ committed)
    /\ Forall (fun t => (1 <= List.length t <= 500)%nat) committed.
Proof.
  destruct (proj1 (@payUsersMultipleTransactions_commits float _
                     unevenPayouts [] []) unevenPayouts_finite)
    as (merged & committed & Hmerged & Hrun & _ & Hsizes & _).
  exists merged, committed. repeat split; assumption.
Defined.

(** X3.  When [checkAndMergePayouts] throws, the error names the first entry
    of the list that is not finite: the entries before it are finite, and
    the error carries its payout, or its deposit when its payout is
    finite. *)
Theorem checkAndMergePayouts_reports_first {num : Type} `{Number num}
    (payouts : list (Utils.Payout num)) (e : Utils.Error num) :
  Utils.checkAndMergePayouts payouts = inl e ->
  exists before q after,
    payouts = before ++ q :: after
    /\ Forall Utils.allFinite before
    /\ ((nisFinite (Utils.payout q) = false
         /\ e = Utils.PayoutIsNotFinite (Utils.payout q))
        \/ (nisFinite (Utils.payout q) = true
            /\ exists d, Utils.deposit q = Some d /\ nisFinite d = false
                         /\ e = Utils.DepositIsNotFinite d)).
Proof.
  intros Hthrown. apply UtilsFacts.checkAndMergePayouts_throws in Hthrown.
  now apply PayFacts.checkPayouts_first.
Qed.

Lemma checkAndMergePayouts_reports_first_witness :
  exists before q after,
    brokenPayouts = before ++ q :: after
    /\ Forall (@Utils.allFinite float _) before.
Proof.
  assert (Hthrown : Utils.checkAndMergePayouts brokenPayouts
                    = inl (Utils.DepositIsNotFinite PrimFloat.nan))
    by (vm_compute; reflexivity).
  destruct (@checkAndMergePayouts_reports_first float _ brokenPayouts _
              Hthrown) as (before & q & after & Heq & Hbefore & _).
  exists before, q, after. split; assumption.
Defined.

(** ** Batched writes *)

Module WriteFacts.
Import UtilsMore.

Section Writes.
Context {Doc Fields : Type}.

Lemma writeChunks_spec (chunks : list (list (UpdateSpec Doc Fields)))
    operationType batchSize total :
  forall i (w : Written Doc Fields),
    committed (writeChunks chunks operationType batchSize total i w)
    = committed w ++ map (map (batchOp operationType)) chunks
    /\ logged (writeChunks chunks operationType batchSize total i w)
       = logged w
         ++ map (fun j => (j * batchSize, total)%nat)
                (seq i (List.length chunks)).
Proof.
  induction chunks as [| c rest IH]; intros i w; cbn [writeChunks].
  - cbn. now rewrite !app_nil_r.
  - destruct (IH (S i)
                {| committed := committed w ++ [map (batchOp operationType) c];
                   logged := logged w ++ [(i * batchSize, total)%nat] |})
      as [Hc Hl].
    rewrite Hc, Hl. cbn [committed logged map List.length seq].
    now rewrite <- !app_assoc.
Qed.

Lemma concat_map_map {A B} (f : A -> B) (ll : list (list A)) :
  List.concat (map (map f) ll) = map f (List.concat ll).
Proof.
  induction ll as [| l ll IH]; cbn [map List.concat]; [reflexivity |].
  now rewrite IH, map_app.
Qed.
End Writes.

End WriteFacts.

(** X4.  With a batch size of at least 1, [writeAsync] commits every update
    once, in order, in batches that are not empty and hold at most
    [batchSize] operations; before each batch it logs one line, and the
    count on that line is the number of operations committed so far.  With
    a batch size of 0 it commits nothing. *)
Theorem writeAsync_commits_all {Doc Fields : Type}
    (updates : list (UtilsMore.UpdateSpec Doc Fields))
    (operationType : UtilsMore.OperationType) (batchSize : nat) :
  let w := UtilsMore.writeAsync updates operationType batchSize in
  ((1 <= batchSize)%nat ->
   List.concat (UtilsMore.committed w)
   = map (UtilsMore.batchOp operationType) updates
   /\ Forall (fun b => (1 <= List.length b <= batchSize)%nat)
             (UtilsMore.committed w)
   /\ List.length (UtilsMore.logged w)
      = List.length (UtilsMore.committed w)
   /\ (forall i line, nth_error (UtilsMore.logged w) i = Some line ->
         line = (List.length
                   (List.concat (firstn i (UtilsMore.committed w))),
                 List.length updates)))
  /\ (batchSize = 0%nat -> UtilsMore.committed w = []).
Proof.
  cbv zeta. unfold UtilsMore.writeAsync.
  destruct (WriteFacts.writeChunks_spec
              (LodashArrays.chunk updates batchSize) operationType batchSize
              (List.length updates) 0
              {| UtilsMore.committed := []; UtilsMore.logged := [] |})
    as [Hc Hl].
  rewrite Hc, Hl. cbn [UtilsMore.committed UtilsMore.logged app].
  split.
  - intros Hsize. split; [| split; [| split]].
    + rewrite WriteFacts.concat_map_map.
      now rewrite (ChunkFacts.concat_chunk updates Hsize).
    + apply Forall_map.
      eapply Forall_impl; [| apply (ChunkFacts.chunk_sizes updates Hsize)].
      intros c Hlen. now rewrite length_map.
    + now rewrite !length_map, length_seq.
    + intros i line Hline.
      rewrite nth_error_map in Hline.
      destruct (nth_error (seq 0 _) i) as [j |] eqn:Hj; [| discriminate].
      injection Hline as <-.
      set (chunks := LodashArrays.chunk updates batchSize) in *.
      assert (Hi : (i < List.length chunks)%nat).
      { assert (Hlt : (i < List.length (seq 0 (List.length chunks)))%nat)
          by (apply nth_error_Some; congruence).
        now rewrite length_seq in Hlt. }
      subst chunks.
      assert (j = i) as ->.
      { apply nth_error_nth with (d := 0%nat) in Hj.
        rewrite seq_nth in Hj by exact Hi. lia. }
      rewrite firstn_map, WriteFacts.concat_map_map, length_map.
      now rewrite (ChunkFacts.chunk_offset updates Hsize Hi).
  - intros ->. reflexivity.
Qed.

Lemma writeAsync_commits_all_witness :
  List.concat
    (UtilsMore.committed
       (UtilsMore.writeAsync
          [ {| UtilsMore.doc := 1%nat; UtilsMore.fields := true |};
            {| UtilsMore.doc := 2%nat; UtilsMore.fields := false |};
            {| UtilsMore.doc := 3%nat; UtilsMore.fields := true |} ]
          UtilsMore.update 2))
  = [ UtilsMore.BatchUpdate 1%nat true; UtilsMore.BatchUpdate 2%nat false;
      UtilsMore.BatchUpdate 3%nat true ].
Proof.
  apply (proj1 (@writeAsync_commits_all nat bool
                  [ {| UtilsMore.doc := 1%nat; UtilsMore.fields := true |};
                    {| UtilsMore.doc := 2%nat; UtilsMore.fields := false |};
                    {| UtilsMore.doc := 3%nat; UtilsMore.fields := true |} ]
                  UtilsMore.update 2)).
  lia.
Defined.

(** ** Paginated reads *)

Module PageFacts.
Import UtilsMore LodashArrays.

Section Pages.
Context {T : Type}.
Variable sameDoc : T -> T -> bool.
Hypothesis sameDoc_spec : forall a b, sameDoc a b = true <-> a = b.

Lemma startAfter_app (before after : list T) (cursor : T) :
  NoDup (before ++ cursor :: after) ->
  startAfter sameDoc cursor (before ++ cursor :: after) = after.
Proof.
  induction before as [| d before IH]; cbn [app startAfter]; intros Hnd.
  - now rewrite (proj2 (sameDoc_spec cursor cursor) eq_refl).
  - inversion Hnd as [| ? ? Hnotin Hrest]; subst.
    destruct (sameDoc d cursor) eqn:Hd.
    + apply sameDoc_spec in Hd. subst d. exfalso. apply Hnotin.
      apply in_or_app. right. left. reflexivity.
    + now apply IH.
Qed.

Lemma lastDoc_app (l : list T) (d : T) : lastDoc (l ++ [d]) = Some d.
Proof. unfold lastDoc. now rewrite rev_app_distr. Qed.

Lemma lastDoc_nil : lastDoc (@nil T) = None.
Proof. reflexivity. Qed.

(** A page that is not empty ends with its cursor. *)
Lemma page_split (page : list T) :
  page <> [] -> exists init cursor, page = init ++ [cursor].
Proof.
  intros Hne. destruct (exists_last Hne) as (init & cursor & ->). eauto.
Qed.

(** The pages read after a page that ends where [rest] begins. *)
Lemma readPages_rest (batchSize : nat) :
  (1 <= batchSize)%nat ->
  forall rest fuel before page,
    (List.length rest + 2 <= fuel)%nat ->
    page <> [] ->
    (exists init, before = init ++ page) ->
    NoDup (before ++ rest) ->
    readPages sameDoc fuel (before ++ rest) batchSize (Some page)
    = Some (chunk rest batchSize ++ [[]]).
Proof.
  intros Hsize.
  induction rest as [| rest Hne IH] using (ChunkFacts.chunk_ind Hsize);
    intros fuel before page Hfuel Hpage (init & ->) Hnd.
  - destruct fuel as [| [| fuel]]; [cbn in Hfuel; lia .. |].
    destruct (page_split Hpage) as (pinit & cursor & ->).
    cbn [readPages]. rewrite lastDoc_app.
    rewrite app_nil_r in *.
    replace (init ++ pinit ++ [cursor])
      with ((init ++ pinit) ++ cursor :: []) in *
      by now rewrite <- app_assoc.
    rewrite startAfter_app by exact Hnd.
    rewrite firstn_nil. cbn [lastDoc rev option_map].
    now rewrite ChunkFacts.chunk_nil.
  - destruct fuel as [| fuel]; [lia |].
    destruct (page_split Hpage) as (pinit & cursor & ->).
    cbn [readPages]. rewrite lastDoc_app.
    replace ((init ++ pinit ++ [cursor]) ++ rest)
      with ((init ++ pinit) ++ cursor :: rest) in *
      by now rewrite <- !app_assoc.
    rewrite startAfter_app by exact Hnd.
    rewrite (ChunkFacts.chunk_cons Hsize Hne).
    assert (Hq : (init ++ pinit) ++ cursor :: rest
                 = (init ++ pinit ++ [cursor] ++ firstn batchSize rest)
                   ++ skipn batchSize rest).
    { rewrite <- (firstn_skipn batchSize rest) at 1.
      now rewrite <- !app_assoc. }
    rewrite Hq in Hnd |- *.
    rewrite (IH fuel _ (firstn batchSize rest)).
    + reflexivity.
    + rewrite length_skipn.
      destruct rest; [congruence | cbn [List.length] in *; lia].
    + destruct rest; [congruence |].
      destruct batchSize; [lia | discriminate].
    + exists (init ++ pinit ++ [cursor]). now rewrite <- !app_assoc.
    + exact Hnd.
Qed.

(** The pages read from the start: the chunks of the query and then one
    empty page. *)
Lemma readPages_all (batchSize fuel : nat) (q : list T) :
  (1 <= batchSize)%nat -> (List.length q + 2 <= fuel)%nat -> NoDup q ->
  readPages sameDoc fuel q batchSize None = Some (chunk q batchSize ++ [[]]).
Proof.
  intros Hsize Hfuel Hnd.
  destruct fuel as [| fuel]; [lia |]. cbn [readPages].
  destruct q as [| d q].
  - rewrite firstn_nil. destruct fuel as [| fuel]; [cbn in Hfuel; lia |].
    cbn [readPages lastDoc rev option_map].
    now rewrite ChunkFacts.chunk_nil.
  - assert (Hne : d :: q <> []) by discriminate.
    rewrite (ChunkFacts.chunk_cons Hsize Hne).
    assert (Hq : d :: q = firstn batchSize (d :: q)
                          ++ skipn batchSize (d :: q))
      by now rewrite firstn_skipn.
    rewrite Hq at 2.
    rewrite (@readPages_rest batchSize Hsize (skipn batchSize (d :: q)) fuel
               (firstn batchSize (d :: q)) (firstn batchSize (d :: q))).
    + reflexivity.
    + rewrite length_skipn. cbn [List.length] in *. lia.
    + destruct batchSize; [lia | discriminate].
    + exists []. reflexivity.
    + now rewrite firstn_skipn.
Qed.

End Pages.

End PageFacts.

(** X5.  On a query whose documents are distinct, with a batch size of at
    least 1 and enough reads allowed, [loadPaginated] returns every
    document of the query once, in the order of the query, and
    [processPaginated] calls [fn] on the pages of [batchSize] documents, in
    order, and then once more on an empty page. *)
Theorem paginated_reads_all {T U : Type} (sameDoc : T -> T -> bool)
    (q : list T) (batchSize fuel : nat) (fn : list T -> U) :
  (forall a b, sameDoc a b = true <-> a = b) ->
  NoDup q ->
  (List.length q + 2 <= fuel)%nat ->
  (1 <= batchSize)%nat ->
  UtilsMore.loadPaginated sameDoc fuel q batchSize = Some q
  /\ UtilsMore.processPaginated sameDoc fuel q batchSize fn
     = Some (map fn (LodashArrays.chunk q batchSize) ++ [fn []]).
Proof.
  intros Hsame Hnd Hfuel Hsize.
  unfold UtilsMore.loadPaginated, UtilsMore.processPaginated.
  rewrite (@PageFacts.readPages_all _ sameDoc Hsame batchSize fuel q
             Hsize Hfuel Hnd).
  cbn [option_map]. split.
  - rewrite concat_app. cbn [List.concat]. rewrite !app_nil_r.
    now rewrite (ChunkFacts.concat_chunk q Hsize).
  - now rewrite map_app.
Qed.

Lemma paginated_reads_all_witness :
  UtilsMore.loadPaginated Nat.eqb 5 [10; 20; 30]%nat 2
  = Some [10; 20; 30]%nat
  /\ UtilsMore.processPaginated Nat.eqb 5 [10; 20; 30]%nat 2
       (@List.length nat)
     = Some [2; 1; 0]%nat.
Proof.
  apply (@paginated_reads_all nat nat Nat.eqb [10; 20; 30]%nat 2 5
           (@List.length nat) Nat.eqb_eq).
  - repeat constructor; cbn; lia.
  - cbn. lia.
  - lia.
Defined.

(** ** Partitioned processing *)

Module PartitionFacts.
Import UtilsMore.

Section Partitions.
Context {T U : Type}.
Variable fn : list T -> U.

Lemma finish_round (s : LoopState U) (ts : list T) :
  results (finish (round fn s ts)) = results (finish s) ++ [fn ts]
  /\ docsProcessed (finish (round fn s ts))
     = (docsProcessed (finish s) + List.length ts)%nat.
Proof. unfold round, finish. destruct (currentlyProcessing s); auto. Qed.

Lemma fold_rounds (parts : list (list T)) :
  forall s : LoopState U,
    results (finish (fold_left (round fn) parts s))
    = results (finish s) ++ map fn parts
    /\ docsProcessed (finish (fold_left (round fn) parts s))
       = (docsProcessed (finish s)
          + List.length (List.concat parts))%nat
    /\ next (fold_left (round fn) parts s)
       = (next s + List.length parts)%nat.
Proof.
  induction parts as [| ts parts IH]; intros s; cbn [fold_left map].
  - cbn. rewrite app_nil_r. repeat split; lia.
  - destruct (IH (round fn s ts)) as (Hr & Hd & Hn).
    destruct (finish_round s ts) as [Hr' Hd'].
    rewrite Hr, Hd, Hn, Hr', Hd'. cbn [List.concat List.length round next].
    rewrite length_app, <- app_assoc. repeat split; cbn [app]; lia.
Qed.
End Partitions.

End PartitionFacts.

(** X6.  [processPartitioned] returns the result of [fn] for every
    partition, once each and in the order of the partitions, the last one
    included, and the documents it counts as processed when it ends are the
    documents of all partitions. *)
Theorem processPartitioned_maps {T U : Type} (parts : list (list T))
    (fn : list T -> U) :
  UtilsMore.processPartitioned parts fn = map fn parts
  /\ UtilsMore.docsProcessed (UtilsMore.processPartitionedState parts fn)
     = List.length (List.concat parts).
Proof.
  unfold UtilsMore.processPartitioned, UtilsMore.processPartitionedState.
  destruct (PartitionFacts.fold_rounds fn parts
              {| UtilsMore.results := []; UtilsMore.docsProcessed := 0;
                 UtilsMore.currentlyProcessing := None;
                 UtilsMore.next := 0 |}) as (Hr & Hd & _).
  split; [exact Hr | exact Hd].
Qed.

(** ** The panels: submitting and settling *)

Module PanelFacts.

Section Generic.
Context {num : Type} `{Number num}.

Lemma limit_submitting_disabled (s : BetPanel.State num) :
  BetPanel.isSubmitting s = true -> BetPanel.betDisabled s = true.
Proof. unfold BetPanel.betDisabled. now intros ->. Qed.

Lemma limit_no_amount_disabled (s : BetPanel.State num) :
  BetPanel.betAmount s = None -> BetPanel.betDisabled s = true.
Proof.
  unfold BetPanel.betDisabled. intros ->. cbn [truthy_opt negb].
  now rewrite orb_true_r.
Qed.

Lemma buy_placed_calls (user : option (User num)) (contract : Contract num)
    (s : BuyPanel.State num) :
  BetPanel.isDefined user = true -> truthy_opt (BuyPanel.betAmount s) = true ->
  BuyPanel.submitBet user contract s
  = ({| BuyPanel.outcome := BuyPanel.outcome s;
        BuyPanel.betAmount := BuyPanel.betAmount s;
        BuyPanel.error := None;
        BuyPanel.isSubmitting := true |},
     [BuyPanel.CallPlaceBet
        {| BuyPanel.placeOutcome := BuyPanel.outcome s;
           BuyPanel.placeAmount := BuyPanel.betAmount s;
           BuyPanel.placeContractId := id contract |};
      BuyPanel.CallTrack
        {| BuyPanel.trackOutcomeType := outcomeType contract;
           BuyPanel.trackSlug := slug contract;
           BuyPanel.trackContractId := id contract;
           BuyPanel.trackAmount := BuyPanel.betAmount s;
           BuyPanel.trackOutcome := BuyPanel.outcome s |}]).
Proof. unfold BuyPanel.submitBet. now intros -> ->. Qed.

Lemma buy_skipped (user : option (User num)) (contract : Contract num)
    (s : BuyPanel.State num) :
  BetPanel.isDefined user = false
  \/ truthy_opt (BuyPanel.betAmount s) = false ->
  BuyPanel.submitBet user contract s = (s, []).
Proof.
  unfold BuyPanel.submitBet.
  intros [-> | ->]; cbn [negb orb]; [| rewrite orb_true_r]; reflexivity.
Qed.
End Generic.

End PanelFacts.

(** X7.  [submitBet] of the limit-order panel guards against a second
    submission: called again on the state it has left, before the promise
    settles, it issues no call and leaves the state as it is. *)
Theorem LimitOrderPanel_submits_once {num : Type} `{Number num}
    (user : option (User num)) (contract : Contract num)
    (s : BetPanel.State num) :
  let s' := fst (BetPanel.submitBet user contract s) in
  BetPanel.submitBet user contract s' = (s', []).
Proof.
  cbv zeta.
  assert (Hs : forall t,
             negb (BetPanel.isDefined user) || BetPanel.betDisabled t = true ->
             BetPanel.submitBet user contract t = (t, [])).
  { intros t Ht. unfold BetPanel.submitBet. now rewrite Ht. }
  destruct (negb (BetPanel.isDefined user) || BetPanel.betDisabled s)
    eqn:Hskip.
  - rewrite (Hs s Hskip). cbn [fst]. apply Hs, Hskip.
  - apply Hs. unfold BetPanel.submitBet. rewrite Hskip. cbn [fst].
    rewrite PanelFacts.limit_submitting_disabled by reflexivity.
    apply orb_true_r.
Qed.

(** X8.  In the limit-order panel the handler of [.then] is chained after
    the handler of [.catch], so it also runs when the order is rejected:
    however the promise settles, the amount and both limits are cleared,
    [onBuySuccess] is called once when it is set, and the panel is disabled
    until a new amount is entered.  A rejection differs only by the error
    message it leaves. *)
Theorem LimitOrderPanel_settle_clears_form {num : Type} `{Number num}
    (onBuySuccess : bool) (result : Promise.Settled)
    (s : BetPanel.State num) :
  exists s' calls,
    LimitOrderPanel.settle onBuySuccess result s
    = (Promise.Fulfilled, s', calls)
    /\ BetPanel.betAmount s' = None
    /\ BetPanel.lowLimitProb s' = None
    /\ BetPanel.highLimitProb s' = None
    /\ BetPanel.isSubmitting s' = false
    /\ BetPanel.error s'
       = match result with
         | Promise.Fulfilled => BetPanel.error s
         | Promise.Rejected (Promise.APIError message) => Some message
         | Promise.Rejected Promise.OtherError =>
             Some "Error placing bet"%string
         end
    /\ count_occ HandlerCall_eq_dec calls OnBuySuccess
       = (if onBuySuccess then 1 else 0)%nat
    /\ BetPanel.betDisabled s' = true.
Proof.
  unfold LimitOrderPanel.settle.
  destruct result as [| [message |]], onBuySuccess;
    cbn [Promise.catch_ Promise.then_ LimitOrderPanel.onFailed
         LimitOrderPanel.onPlaced app];
    eexists; eexists; (split; [reflexivity |]);
    cbn [BetPanel.betAmount BetPanel.lowLimitProb BetPanel.highLimitProb
         BetPanel.isSubmitting BetPanel.error];
    repeat (split; [reflexivity |]);
    now apply PanelFacts.limit_no_amount_disabled.
Qed.

(** X9.  In the buy panel the handler of [.catch] is chained after the
    handler of [.then]: when the bet is rejected the amount and the outcome
    entered are kept, the error is set, and neither [onBuySuccess] nor the
    toast is called; when it is placed the amount is cleared, so that the
    button is disabled and [submitBet] does nothing until a new amount is
    entered. *)
Theorem BuyPanel_settle_keeps_form_on_failure {num : Type} `{Number num}
    (onBuySuccess : bool) (result : Promise.Settled)
    (s : BuyPanel.State num) (user : option (User num))
    (contract : Contract num) :
  exists s' calls,
    BuyPanel.settle onBuySuccess result s = (Promise.Fulfilled, s', calls)
    /\ BuyPanel.outcome s' = BuyPanel.outcome s
    /\ BuyPanel.isSubmitting s' = false
    /\ match result with
       | Promise.Fulfilled =>
           BuyPanel.betAmount s' = None
           /\ BuyPanel.error s' = BuyPanel.error s
           /\ calls = [ConsoleLog;
                       if onBuySuccess then OnBuySuccess else Toast]
           /\ BuyPanel.buttonDisabled s' = true
           /\ BuyPanel.submitBet user contract s' = (s', [])
       | Promise.Rejected e =>
           BuyPanel.betAmount s' = BuyPanel.betAmount s
           /\ BuyPanel.error s'
              = Some match e with
                     | Promise.APIError message => message
                     | Promise.OtherError => "Error placing bet"%string
                     end
           /\ ~ In OnBuySuccess calls
           /\ ~ In Toast calls
       end.
Proof.
  unfold BuyPanel.settle.
  destruct result as [| [message |]];
    cbn [Promise.catch_ Promise.then_ BuyPanel.onFailed BuyPanel.onPlaced
         app];
    eexists; eexists; (split; [reflexivity |]);
    cbn [BuyPanel.outcome BuyPanel.betAmount BuyPanel.isSubmitting
         BuyPanel.error];
    repeat (split; [reflexivity |]).
  - apply PanelFacts.buy_skipped. right. reflexivity.
  - split; intros [].
  - split; intros [Hcall | []]; discriminate.
Qed.

(** X10.  [submitBet] of the buy panel issues no [placeBet] exactly when
    there is no signed-in user or the amount is undefined, 0 or NaN.  It does
    not look at [isSubmitting]: called again on the state it has left,
    before the promise settles, it issues the same calls a second time. *)
Theorem BuyPanel_submitBet_unguarded {num : Type} `{Number num}
    (user : option (User num)) (contract : Contract num)
    (s : BuyPanel.State num) :
  (BuyPanel.placed (snd (BuyPanel.submitBet user contract s)) = [] <->
   user = None \/ truthy_opt (BuyPanel.betAmount s) = false)
  /\ snd (BuyPanel.submitBet user contract
            (fst (BuyPanel.submitBet user contract s)))
     = snd (BuyPanel.submitBet user contract s).
Proof.
  destruct user as [u |] eqn:Huser;
    [destruct (truthy_opt (BuyPanel.betAmount s)) eqn:Hamount |].
  - rewrite (@PanelFacts.buy_placed_calls num _ (Some u) contract s eq_refl
               Hamount).
    cbn [fst snd]. split.
    + cbn. split; [discriminate | intros [? | ?]; discriminate].
    + match goal with
      | |- snd (BuyPanel.submitBet _ _ ?t) = _ =>
          rewrite (@PanelFacts.buy_placed_calls num _ (Some u) contract t
                     eq_refl Hamount)
      end.
      reflexivity.
  - rewrite (@PanelFacts.buy_skipped num _ (Some u) contract s
               (or_intror Hamount)).
    cbn [fst snd BuyPanel.placed flat_map]. split; [tauto |].
    now rewrite (@PanelFacts.buy_skipped num _ (Some u) contract s
                   (or_intror Hamount)).
  - rewrite (@PanelFacts.buy_skipped num _ None contract s
               (or_introl eq_refl)).
    cbn [fst snd BuyPanel.placed flat_map]. split; [tauto |].
    now rewrite (@PanelFacts.buy_skipped num _ None contract s
                   (or_introl eq_refl)).
Qed.

(** X11.  While the button of the buy panel is enabled an outcome is chosen
    and the amount is a number other than 0, so pressing it places one bet,
    on that outcome and for that amount; the same outcome and amount are
    tracked, and the button is disabled when [submitBet] returns. *)
Theorem BuyPanel_enabled_button_places_one_bet {num : Type} `{Number num}
    (user : User num) (contract : Contract num) (s : BuyPanel.State num) :
  BuyPanel.buttonDisabled s = false ->
  exists o a,
    BuyPanel.outcome s = Some o
    /\ BuyPanel.betAmount s = Some a
    /\ truthy a = true
    /\ snd (BuyPanel.submitBet (Some user) contract s)
       = [BuyPanel.CallPlaceBet
            {| BuyPanel.placeOutcome := Some o;
               BuyPanel.placeAmount := Some a;
               BuyPanel.placeContractId := id contract |};
          BuyPanel.CallTrack
            {| BuyPanel.trackOutcomeType := outcomeType contract;
               BuyPanel.trackSlug := slug contract;
               BuyPanel.trackContractId := id contract;
               BuyPanel.trackAmount := Some a;
               BuyPanel.trackOutcome := Some o |}]
    /\ BuyPanel.buttonDisabled
         (fst (BuyPanel.submitBet (Some user) contract s)) = true.
Proof.
  unfold BuyPanel.buttonDisabled, BuyPanel.betDisabled. intros Henabled.
  apply orb_false_iff in Henabled as [Henabled Houtcome].
  apply orb_false_iff in Henabled as [Henabled _].
  apply orb_false_iff in Henabled as [_ Hamount].
  apply negb_false_iff in Houtcome, Hamount.
  destruct (BuyPanel.outcome s) as [o |] eqn:Ho; [| discriminate].
  destruct (BuyPanel.betAmount s) as [a |] eqn:Ha; [| discriminate].
  exists o, a. repeat (split; [reflexivity || exact Hamount |]).
  assert (Htruthy : truthy_opt (BuyPanel.betAmount s) = true)
    by now rewrite Ha.
  rewrite (@PanelFacts.buy_placed_calls num _ (Some user) contract s eq_refl
             Htruthy).
  cbn [fst snd BuyPanel.isSubmitting orb]. rewrite Ho, Ha. split; reflexivity.
Qed.

Lemma BuyPanel_enabled_button_places_one_bet_witness :
  exists o a,
    BuyPanel.outcome yesPurchase = Some o
    /\ BuyPanel.betAmount yesPurchase = Some a
    /\ truthy a = true
    /\ snd (BuyPanel.submitBet (Some trader) openContract yesPurchase)
       = [BuyPanel.CallPlaceBet
            {| BuyPanel.placeOutcome := Some o;
               BuyPanel.placeAmount := Some a;
               BuyPanel.placeContractId := id openContract |};
          BuyPanel.CallTrack
            {| BuyPanel.trackOutcomeType := outcomeType openContract;
               BuyPanel.trackSlug := slug openContract;
               BuyPanel.trackContractId := id openContract;
               BuyPanel.trackAmount := Some a;
               BuyPanel.trackOutcome := Some o |}]
    /\ BuyPanel.buttonDisabled
         (fst (BuyPanel.submitBet (Some trader) openContract yesPurchase))
       = true.
Proof.
  apply (@BuyPanel_enabled_button_places_one_bet float _ trader openContract
           yesPurchase).
  vm_compute. reflexivity.
Defined.

(** X12.  For every limit order that [submitBet] places it makes one
    [track] call, in the same order, with the same outcome, limit
    probability and contract; the orders are placed before anything is
    tracked, a range order is tracked as such, and its two amounts are the
    amounts placed. *)
Theorem LimitOrderPanel_tracks_each_order {num : Type} `{Number num}
    (user : User num) (contract : Contract num) (s : BetPanel.State num) :
  BetPanel.betDisabled s = false ->
  let calls := snd (BetPanel.submitBet (Some user) contract s) in
  let orders := BetPanel.placed calls in
  let tracks := LimitOrderPanel.tracked calls in
  calls = map (@BetPanel.CallPlaceBet num) orders
          ++ map (@BetPanel.CallTrack num) tracks
  /\ map (fun o => (BetPanel.placeOutcome o, BetPanel.placeLimitProb o,
                    BetPanel.placeContractId o)) orders
     = map (fun t => (BetPanel.trackOutcome t, BetPanel.trackLimitProb t,
                      BetPanel.trackContractId t)) tracks
  /\ Forall (fun t => BetPanel.trackIsRangeOrder t
                      = (List.length orders =? 2)%nat) tracks
  /\ (BetPanel.hasTwoBets s = true ->
      map (@BetPanel.placeAmount num) orders
      = map (fun t => Some (BetPanel.trackAmount t)) tracks).
Proof.
  intros Henabled. cbv zeta. unfold BetPanel.submitBet.
  cbn [BetPanel.isDefined negb orb]. rewrite Henabled. cbn [snd].
  unfold BetPanel.betDisabled in Henabled.
  repeat (apply orb_false_iff in Henabled as [Henabled ?]).
  unfold BetPanel.trackCalls, BetPanel.hasTwoBets.
  destruct (BetPanel.hasYesLimitBet s) eqn:Hyes,
    (BetPanel.hasNoLimitBet s) eqn:Hno;
    try discriminate;
    cbn [andb app map BetPanel.placed LimitOrderPanel.tracked flat_map
         List.length Nat.eqb BetPanel.placeOutcome BetPanel.placeLimitProb
         BetPanel.placeContractId BetPanel.trackOutcome
         BetPanel.trackLimitProb BetPanel.trackContractId
         BetPanel.placeAmount BetPanel.trackAmount];
    repeat split; try discriminate;
    repeat constructor.
Qed.

Lemma LimitOrderPanel_tracks_each_order_witness :
  map (fun o => (BetPanel.placeOutcome o, BetPanel.placeLimitProb o,
                 BetPanel.placeContractId o))
      (BetPanel.placed
         (snd (BetPanel.submitBet (Some trader) openContract rangeOrder)))
  = map (fun t => (BetPanel.trackOutcome t, BetPanel.trackLimitProb t,
                   BetPanel.trackContractId t))
        (LimitOrderPanel.tracked
           (snd (BetPanel.submitBet (Some trader) openContract rangeOrder))).
Proof.
  apply (@LimitOrderPanel_tracks_each_order float _ trader openContract
           rangeOrder).
  vm_compute. reflexivity.
Defined.

(** ** Range orders in exact arithmetic *)

Module RangeFacts.
Import BetPanel.

(** [clamp] is monotone over the rationals. *)
Lemma clamp_monotone (x y lower upper : Q) :
  (lower <= upper)%Q -> (x <= y)%Q ->
  (Lodash.clamp x lower upper <= Lodash.clamp y lower upper)%Q.
Proof.
  intros Hbounds Hxy. unfold Lodash.clamp. cbn [neqb nleb exact].
  rewrite !Qeq_bool_refl.
  destruct (Qle_bool x upper) eqn:Hxu, (Qle_bool y upper) eqn:Hyu;
    [destruct (Qle_bool lower x) eqn:Hlx, (Qle_bool lower y) eqn:Hly | | |];
    repeat match goal with
           | Hb : Qle_bool _ _ = true |- _ => apply Qle_bool_iff in Hb
           | Hb : Qle_bool ?a ?b = false |- _ =>
               assert (b < a)%Q
                 by (apply Qnot_le_lt; intros Hle;
                     apply Qle_bool_iff in Hle; congruence);
               clear Hb
           | |- context [Qle_bool ?a ?b] =>
               let Hb := fresh "Hb" in destruct (Qle_bool a b) eqn:Hb
           end; lra.
Qed.
End RangeFacts.

(** X13.  A range order in exact arithmetic, with an amount that is not
    negative and a low limit that is at most the high limit: the YES limit
    probability is at most the NO limit probability, one of the two orders
    is for the whole amount entered, and the two amounts together are at
    most the number of shares that each order asks for, so that the pair is
    never bought above 1 per share. *)
Theorem range_order_costs_at_most_shares (s : BetPanel.State Q)
    (a low high : Q) :
  BetPanel.betAmount s = Some a -> (0 <= a)%Q ->
  BetPanel.lowLimitProb s = Some low ->
  BetPanel.highLimitProb s = Some high ->
  (low <= high)%Q ->
  exists y n,
    BetPanel.yesLimitProb s = Some y /\ BetPanel.noLimitProb s = Some n
    /\ (y <= n)%Q
    /\ (BetPanel.yesAmount s == a \/ BetPanel.noAmount s == a)%Q
    /\ (BetPanel.yesAmount s + BetPanel.noAmount s <= BetPanel.sharesOf s)%Q.
Proof.
  intros Ha Hpos Hl Hh Hrange.
  unfold BetPanel.yesAmount, BetPanel.noAmount, BetPanel.sharesOf,
    BetPanel.amountOf, BetPanel.yesLimitProb, BetPanel.noLimitProb,
    BetPanel.limitProbOf.
  rewrite Ha, Hl, Hh.
  pose proof (LimitFacts.clamp_exact (low / n100)%js) as [Hy1 Hy2].
  pose proof (LimitFacts.clamp_exact (high / n100)%js) as [Hn1 Hn2].
  assert (Hyn : (Lodash.clamp (low / n100)%js n0_001 n0_999
                 <= Lodash.clamp (high / n100)%js n0_001 n0_999)%Q).
  { apply RangeFacts.clamp_monotone; [discriminate |].
    cbn [ndiv n100 exact]. unfold Qdiv.
    apply Qmult_le_compat_r; [exact Hrange | discriminate]. }
  set (y := Lodash.clamp (low / n100)%js n0_001 n0_999) in *.
  set (n := Lodash.clamp (high / n100)%js n0_001 n0_999) in *.
  exists y, n. split; [reflexivity |]. split; [reflexivity |].
  split; [exact Hyn |].
  cbn [nmin nmul ndiv nsub n1 exact].
  assert (Hyes : (a / y * y == a)%Q)
    by (rewrite Qmult_comm, Qmult_div_r; [reflexivity | lra]).
  assert (Hno : (a / (1 - n) * (1 - n) == a)%Q)
    by (rewrite Qmult_comm, Qmult_div_r; [reflexivity | lra]).
  assert (Hshares : (0 <= Qmin (a / y) (a / (1 - n)))%Q).
  { apply Q.min_glb; apply Qle_shift_div_l; lra. }
  split.
  - destruct (Q.min_spec (a / y) (a / (1 - n))) as [[_ Hmin] | [_ Hmin]];
      rewrite Hmin; [left | right]; assumption.
  - set (shares := Qmin (a / y) (a / (1 - n))) in *.
    assert (Hsum : (shares * y + shares * (1 - n) == shares * (y + 1 - n))%Q)
      by ring.
    rewrite Hsum.
    rewrite <- (Qmult_1_r shares) at 2.
    rewrite (Qmult_comm shares), (Qmult_comm shares 1).
    apply Qmult_le_compat_r; [lra | exact Hshares].
Qed.

Lemma range_order_costs_at_most_shares_witness :
  exists y n,
    BetPanel.yesLimitProb rangeOrderExact = Some y
    /\ BetPanel.noLimitProb rangeOrderExact = Some n
    /\ (y <= n)%Q
    /\ (BetPanel.yesAmount rangeOrderExact == 10
        \/ BetPanel.noAmount rangeOrderExact == 10)%Q
    /\ (BetPanel.yesAmount rangeOrderExact + BetPanel.noAmount rangeOrderExact
        <= BetPanel.sharesOf rangeOrderExact)%Q.
Proof.
  apply (@range_order_costs_at_most_shares rangeOrderExact 10%Q 1%Q 46%Q);
    try reflexivity; discriminate.
Defined.

(** ** The warning of the buy panel *)

Module WarningFacts.

(** A number that is at least 100 is above 10. *)
Lemma above_ten (a : float) :
  PrimFloat.leb 100 a = true -> PrimFloat.ltb 10 a = true.
Proof.
  rewrite leb_spec, ltb_spec.
  change (Prim2SF 100) with (S754_finite false 7036874417766400 (-46)).
  change (Prim2SF 10) with (S754_finite false 5629499534213120 (-49)).
  unfold SFleb, SFltb, SFcompare.
  destruct (Prim2SF a) as [s | s | | s m e]; try discriminate.
  - destruct s; [discriminate | reflexivity].
  - destruct s; [discriminate |].
    destruct (Z.compare_spec (-46) e) as [<- | Hlt | Hgt].
    + reflexivity.
    + intros _.
      destruct (Z.compare_spec (-49) e) as [Heq | Hlt' | Hgt'];
        [lia | reflexivity | lia].
    + discriminate.
Qed.
End WarningFacts.

(** X24.  The buy panel warns only about an amount above 10 whose
    [bankrollFraction], the amount divided by the balance as binary64
    computes it, is at most 1; without an amount there is no warning.  The
    bound is on the fraction, not on the balance: see
    [warning_with_negative_balance]. *)
Theorem BuyPanel_warning_conditions (betAmount : option float)
    (user : option (User float)) (probChange : float)
    (w : BuyWarning.Warning) :
  BuyWarning.warning betAmount user probChange = Some w ->
  (exists a, betAmount = Some a /\ PrimFloat.ltb 10 a = true)
  /\ PrimFloat.leb (BuyWarning.bankrollFraction betAmount user) 1 = true.
Proof.
  unfold BuyWarning.warning.
  destruct (PrimFloat.leb 100 _ && PrimFloat.leb 0.5 _
            && PrimFloat.leb _ 1) eqn:Hspend.
  - intros _. apply andb_true_iff in Hspend as [Hspend Hwithin].
    apply andb_true_iff in Hspend as [Hlarge _].
    split; [| exact Hwithin].
    destruct betAmount as [a |]; [| vm_compute in Hlarge; discriminate].
    exists a. split; [reflexivity | now apply WarningFacts.above_ten].
  - destruct (PrimFloat.ltb 10 _ && PrimFloat.ltb 0.299 probChange
              && PrimFloat.leb _ 1) eqn:Hmove; [| discriminate].
    intros _. apply andb_true_iff in Hmove as [Hmove Hwithin].
    apply andb_true_iff in Hmove as [Hlarge _].
    split; [| exact Hwithin].
    destruct betAmount as [a |]; [| vm_compute in Hlarge; discriminate].
    exists a. split; [reflexivity | exact Hlarge].
Qed.

Lemma BuyPanel_warning_conditions_witness :
  (exists a, Some 600%float = Some a /\ PrimFloat.ltb 10 a = true)
  /\ PrimFloat.leb (BuyWarning.bankrollFraction (Some 600%float)
                      (Some trader)) 1 = true.
Proof.
  apply (@BuyPanel_warning_conditions (Some 600%float) (Some trader)
           0.01%float BuyWarning.SpendWarning).
  vm_compute. reflexivity.
Defined.

(** With a balance of -100 the fraction of a bet of 200 is -2, which is at
    most 1: the bet, larger than the balance, gets the warning about the
    move of the market. *)
Example warning_with_negative_balance :
  BuyWarning.bankrollFraction (Some 200%float) (Some indebted)
  = (-2)%float
  /\ BuyWarning.warning (Some 200%float) (Some indebted) 0.5%float
     = Some BuyWarning.MoveWarning.
Proof. split; vm_compute; reflexivity. Qed.

(** ** [FilterSelectUsers] *)

Module SelectFacts.
Import FilterSelectUsers.

Section Component.
Variable ignoreUserIds : list string.
Variable maxUsers : option nat.

Lemma existsb_name (selected : list SearchUserInfo) (user : SearchUserInfo) :
  existsb (fun u => String.eqb (name u) (name user)) selected = true
  <-> In (name user) (map name selected).
Proof.
  rewrite existsb_exists, in_map_iff. split.
  - intros (u & Hin & Heq). apply String.eqb_eq in Heq. eauto.
  - intros (u & Heq & Hin). exists u. split; [exact Hin |].
    now apply String.eqb_eq.
Qed.

Lemma existsb_id (user : SearchUserInfo) :
  existsb (fun i => String.eqb i (id user)) ignoreUserIds = true
  <-> In (id user) ignoreUserIds.
Proof.
  rewrite existsb_exists. split.
  - intros (i & Hin & Heq). apply String.eqb_eq in Heq. now subst.
  - intros Hin. exists (id user). split; [exact Hin | apply String.eqb_refl].
Qed.

Lemma keep_iff (selected : list SearchUserInfo) (user : SearchUserInfo) :
  keep ignoreUserIds selected user = true
  <-> ~ In (name user) (map name selected) /\ ~ In (id user) ignoreUserIds.
Proof.
  unfold keep. rewrite andb_true_iff, !negb_true_iff.
  rewrite <- existsb_name, <- existsb_id.
  split; intros [Hn Hi]; split;
    first [ now rewrite Hn | now rewrite Hi
          | now apply not_true_is_false ].
Qed.

Lemma NoDup_map_filter {A B} (f : A -> B) (g : A -> bool) (l : list A) :
  NoDup (map f l) -> NoDup (map f (filter g l)).
Proof.
  induction l as [| a l IH]; cbn [map filter]; [auto |].
  intros Hnd. inversion Hnd as [| ? ? Hnotin Hrest]; subst.
  destruct (g a); cbn [map]; [| now apply IH].
  constructor; [| now apply IH].
  intros Hin. apply Hnotin. apply in_map_iff in Hin as (x & Hx & Hin).
  apply filter_In in Hin as [Hin _]. apply in_map_iff. eauto.
Qed.

Lemma Inv_requests_made (s : State) : Inv ignoreUserIds s -> requests_made s.
Proof.
  intros [_ _ Hreqs]. unfold requests_made.
  eapply Forall_impl; [| exact Hreqs]. cbv beta. now intros r [Hle _].
Qed.

(** The effect makes the requests under way stale, whatever they have
    captured. *)
Lemma Inv_effect (s : State) :
  NoDup (map name (selectedUsers s)) ->
  Forall (fun u => keep ignoreUserIds (selectedUsers s) u = true)
         (filteredUsers s) ->
  requests_made s ->
  Inv ignoreUserIds (effect s).
Proof.
  intros Hnames Hkept Hreqs. unfold effect.
  assert (Hold : Forall (fun r => (requestedId r <= S (requestId s))%nat
                                  /\ (requestedId r = S (requestId s) ->
                                      selectedThen r = selectedUsers s))
                        (pending s)).
  { eapply Forall_impl; [| exact Hreqs]. cbv beta. intros r Hle.
    split; [lia | intros Heq; lia]. }
  destruct (2 <? String.length (query s))%nat; constructor;
    cbn [selectedUsers filteredUsers pending requestId]; auto.
  apply Forall_app. split; [exact Hold |].
  constructor; [| constructor]. cbn [requestedId selectedThen]. auto.
Qed.

Lemma Inv_handle (e : Event) (s s' : State) :
  Inv ignoreUserIds s -> handle ignoreUserIds maxUsers e s = Some s' ->
  Inv ignoreUserIds s'.
Proof.
  intros HI. pose proof (Inv_requests_made HI) as Hmade.
  pose proof HI as [Hnames Hkept Hreqs].
  destruct e as [q | request results | i | i]; cbn [handle].
  - destruct (shouldShow maxUsers (selectedUsers s)); [| discriminate].
    intros [= <-]. destruct (String.eqb q (query s)); [exact HI |].
    apply Inv_effect; assumption.
  - destruct (find _ (pending s)) as [r |] eqn:Hfind; [| discriminate].
    intros [= <-]. apply find_some in Hfind as [Hin Hid].
    rewrite Forall_forall in Hreqs. destruct (Hreqs r Hin) as [_ Hcurrent].
    assert (Hsub : Forall (fun r => (requestedId r <= requestId s)%nat
                                    /\ (requestedId r = requestId s ->
                                        selectedThen r = selectedUsers s))
                          (filter (fun r0 => negb (requestedId r0
                                                   =? requestedId r)%nat)
                                  (pending s))).
    { apply Forall_forall. intros r0 Hr0.
      apply filter_In in Hr0 as [Hr0 _]. now apply Hreqs. }
    unfold onResults.
    destruct (requestedId r =? requestId s)%nat eqn:Hnow;
      constructor; cbn [selectedUsers filteredUsers pending requestId];
      auto.
    apply Nat.eqb_eq in Hnow. rewrite <- (Hcurrent Hnow).
    apply Forall_forall. intros u Hu. now apply filter_In in Hu as [_ Hu].
  - destruct (nth_error (filteredUsers s) i) as [user |] eqn:Hnth;
      [| discriminate].
    destruct (shouldShow maxUsers (selectedUsers s)); [| discriminate].
    intros [= <-]. apply nth_error_In in Hnth.
    rewrite Forall_forall in Hkept.
    apply Hkept, keep_iff in Hnth as [Hn _].
    unfold effect. cbn [query selectedUsers requestId pending String.length
                        Nat.ltb Nat.leb].
    constructor; cbn [selectedUsers filteredUsers pending requestId].
    + rewrite map_app. cbn [map].
      apply Permutation_NoDup with (name user :: map name (selectedUsers s)).
      * apply Permutation_cons_append.
      * now constructor.
    + constructor.
    + eapply Forall_impl; [| exact Hmade]. cbv beta. intros r Hle.
      split; [lia | intros Heq; lia].
  - destruct (nth_error (selectedUsers s) i) as [user |] eqn:Hnth;
      [| discriminate].
    intros [= <-]. apply Inv_effect;
      cbn [selectedUsers filteredUsers pending requestId].
    + now apply NoDup_map_filter.
    + eapply Forall_impl; [| exact Hkept]. cbv beta. intros u Hu.
      apply keep_iff in Hu as [Hn Hi]. apply keep_iff. split; [| exact Hi].
      intros Hin. apply Hn. apply in_map_iff in Hin as (x & Hx & Hin).
      apply filter_In in Hin as [Hin _]. apply in_map_iff. eauto.
    + exact Hmade.
Qed.

Lemma Inv_mount (selected : list SearchUserInfo) :
  NoDup (map name selected) -> Inv ignoreUserIds (mount selected).
Proof.
  intros Hnames. unfold mount.
  apply Inv_effect; cbn [selectedUsers filteredUsers pending]; auto.
  constructor.
Qed.

Lemma Inv_run (events : list Event) :
  forall s s',
    Inv ignoreUserIds s -> run ignoreUserIds maxUsers events s = Some s' ->
    Inv ignoreUserIds s'.
Proof.
  induction events as [| e events IH]; intros s s' HI; cbn [run].
  - now intros [= <-].
  - destruct (handle ignoreUserIds maxUsers e s) as [s1 |] eqn:He;
      [| discriminate].
    apply IH. eapply Inv_handle; eassumption.
Qed.

(** The effect leaves [selectedUsers] as it is. *)
Lemma selectedUsers_effect (s : State) :
  selectedUsers (effect s) = selectedUsers s.
Proof.
  unfold effect. now destruct (2 <? String.length (query s))%nat.
Qed.

(** With a limit that is not 0 the number of selected users stays within
    it. *)
Lemma bound_handle (m : nat) (e : Event) (s s' : State) :
  maxUsers = Some m -> m <> 0%nat ->
  (List.length (selectedUsers s) <= m)%nat ->
  handle ignoreUserIds maxUsers e s = Some s' ->
  (List.length (selectedUsers s') <= m)%nat.
Proof.
  intros Hmax Hm Hlen.
  destruct e as [q | request results | i | i]; cbn [handle].
  - destruct (shouldShow maxUsers (selectedUsers s)); [| discriminate].
    intros [= <-]. destruct (String.eqb q (query s)); [exact Hlen |].
    now rewrite selectedUsers_effect.
  - destruct (find _ (pending s)) as [r |]; [| discriminate].
    intros [= <-]. unfold onResults.
    now destruct (requestedId r =? requestId s)%nat.
  - destruct (nth_error (filteredUsers s) i) as [user |]; [| discriminate].
    destruct (shouldShow maxUsers (selectedUsers s)) eqn:Hshow;
      [| discriminate].
    intros [= <-]. rewrite selectedUsers_effect. cbn [selectedUsers].
    unfold shouldShow in Hshow. rewrite Hmax in Hshow.
    destruct (m =? 0)%nat eqn:Hzero;
      [apply Nat.eqb_eq in Hzero; contradiction |].
    apply Nat.ltb_lt in Hshow. rewrite length_app. cbn [List.length]. lia.
  - destruct (nth_error (selectedUsers s) i) as [user |]; [| discriminate].
    intros [= <-]. rewrite selectedUsers_effect. cbn [selectedUsers].
    pose proof (filter_length_le
                  (fun u => negb (String.eqb (id u) (id user)))
                  (selectedUsers s)).
    lia.
Qed.

Lemma bound_run (m : nat) (events : list Event) :
  maxUsers = Some m -> m <> 0%nat ->
  forall s s', (List.length (selectedUsers s) <= m)%nat ->
               run ignoreUserIds maxUsers events s = Some s' ->
               (List.length (selectedUsers s') <= m)%nat.
Proof.
  intros Hmax Hm.
  induction events as [| e events IH]; intros s s' Hlen; cbn [run].
  - now intros [= <-].
  - destruct (handle ignoreUserIds maxUsers e s) as [s1 |] eqn:He;
      [| discriminate].
    apply IH. eapply bound_handle; eassumption.
Qed.
End Component.

End SelectFacts.

(** X14.  [FilterSelectUsers], from its first render on and whatever the
    order in which the searches are answered: when the selected users start
    with distinct names they keep distinct names, no suggestion shown has
    the name of a selected user or an ignored id (an answer to a search that
    is not the latest is dropped), and with a limit [maxUsers] other than 0
    that the selection starts within, the selection stays within it. *)
Theorem FilterSelectUsers_selection_invariant
    (ignoreUserIds : list string) (maxUsers : option nat)
    (selected : list FilterSelectUsers.SearchUserInfo)
    (events : list FilterSelectUsers.Event) :
  NoDup (map FilterSelectUsers.name selected) ->
  match FilterSelectUsers.run ignoreUserIds maxUsers events
          (FilterSelectUsers.mount selected) with
  | Some s =>
      NoDup (map FilterSelectUsers.name (FilterSelectUsers.selectedUsers s))
      /\ Forall (fun u =>
                   ~ In (FilterSelectUsers.name u)
                        (map FilterSelectUsers.name
                             (FilterSelectUsers.selectedUsers s))
                   /\ ~ In (FilterSelectUsers.id u) ignoreUserIds)
                (FilterSelectUsers.filteredUsers s)
      /\ (forall m, maxUsers = Some m -> m <> 0%nat ->
                    (List.length selected <= m)%nat ->
                    (List.length (FilterSelectUsers.selectedUsers s)
                     <= m)%nat)
  | None => True
  end.
Proof.
  intros Hnames.
  destruct (FilterSelectUsers.run ignoreUserIds maxUsers events
              (FilterSelectUsers.mount selected)) as [s |] eqn:Hrun;
    [| exact I].
  pose proof (@SelectFacts.Inv_run ignoreUserIds maxUsers events _ s
                (@SelectFacts.Inv_mount ignoreUserIds selected Hnames) Hrun)
    as [Hdistinct Hkept _].
  split; [exact Hdistinct |]. split.
  - eapply Forall_impl; [| exact Hkept]. cbv beta. intros u Hu.
    now apply SelectFacts.keep_iff in Hu.
  - intros m Hmax Hm Hlen.
    apply (@SelectFacts.bound_run ignoreUserIds maxUsers m events Hmax Hm
             (FilterSelectUsers.mount selected) s); [| exact Hrun].
    unfold FilterSelectUsers.mount.
    now rewrite SelectFacts.selectedUsers_effect.
Qed.

Lemma FilterSelectUsers_selection_invariant_witness :
  match FilterSelectUsers.run ["u9"%string] (Some 2%nat) selectTwice
          (FilterSelectUsers.mount []) with
  | Some s =>
      NoDup (map FilterSelectUsers.name (FilterSelectUsers.selectedUsers s))
      /\ Forall (fun u =>
                   ~ In (FilterSelectUsers.name u)
                        (map FilterSelectUsers.name
                             (FilterSelectUsers.selectedUsers s))
                   /\ ~ In (FilterSelectUsers.id u) ["u9"%string])
                (FilterSelectUsers.filteredUsers s)
      /\ (forall m, Some 2%nat = Some m -> m <> 0%nat ->
                    (List.length (@nil FilterSelectUsers.SearchUserInfo)
                     <= m)%nat ->
                    (List.length (FilterSelectUsers.selectedUsers s)
                     <= m)%nat)
  | None => True
  end.
Proof.
  apply (@FilterSelectUsers_selection_invariant ["u9"%string] (Some 2%nat)
           [] selectTwice).
  constructor.
Defined.

(** The run of the witness ends with Ada and Adam selected. *)
Example selectTwice_selects :
  option_map FilterSelectUsers.selectedUsers
    (FilterSelectUsers.run ["u9"%string] (Some 2%nat) selectTwice
       (FilterSelectUsers.mount []))
  = Some [ada; adam].
Proof. vm_compute. reflexivity. Qed.

(** ** [ResolutionPanel] *)

(** X15.  [resolve] never clears the error: once an attempt has failed, the
    error it has set stays through later calls of [resolve] until another
    failure replaces it, also when a later attempt succeeds; calls that
    succeed leave the error as it was.  The outcome and the probability
    entered are kept. *)
Theorem resolve_never_clears_error {num : Type} (contract : Contract num)
    (results : list Promise.Settled) (s : ResolutionPanel.State num) :
  let s' := ResolutionPanel.resolveAll contract results s in
  (ResolutionPanel.error s <> None -> ResolutionPanel.error s' <> None)
  /\ (Forall (fun result => result = Promise.Fulfilled) results ->
      ResolutionPanel.error s' = ResolutionPanel.error s)
  /\ ResolutionPanel.outcome s' = ResolutionPanel.outcome s
  /\ ResolutionPanel.prob s' = ResolutionPanel.prob s.
Proof.
  cbv zeta. unfold ResolutionPanel.resolveAll. revert s.
  induction results as [| result results IH]; intros s; cbn [fold_left].
  - auto.
  - destruct (IH (fst (ResolutionPanel.resolve contract result s)))
      as (Hkept & Hsame & Houtcome & Hprob).
    unfold ResolutionPanel.resolve in *.
    destruct (ResolutionPanel.outcome s) as [o |] eqn:Ho; cbn [fst] in *.
    + cbn [ResolutionPanel.outcome ResolutionPanel.prob
           ResolutionPanel.error] in *.
      rewrite Houtcome, Hprob.
      split; [| split; [| split]]; try reflexivity.
      * intros Herr. apply Hkept.
        destruct result as [| [message |]]; [exact Herr | discriminate ..].
      * intros Hall. inversion Hall as [| ? ? Hfirst Hrest]; subst.
        now rewrite (Hsame Hrest).
    + rewrite Houtcome, Hprob.
      split; [exact Hkept |]. split; [| auto].
      intros Hall. inversion Hall as [| ? ? Hfirst Hrest]; subst.
      now apply Hsame.
Qed.

(** ** The list of bets *)

Module PaginationFacts.
Import BetsListMore.

Lemma firstn_add {A} (a b : nat) (l : list A) :
  firstn (a + b) l = firstn a l ++ firstn b (skipn a l).
Proof.
  revert l. induction a as [| a IH]; intros l; [reflexivity |].
  destruct l as [| x l]; cbn [Nat.add firstn skipn app].
  - now rewrite firstn_nil.
  - now rewrite IH.
Qed.

Lemma displayedContracts_eq {A} (page : nat) (l : list A) :
  displayedContracts page l
  = firstn CONTRACTS_PER_PAGE (skipn (page * CONTRACTS_PER_PAGE) l).
Proof.
  unfold displayedContracts, slice. f_equal. lia.
Qed.

Lemma pages_concat {A} (l : list A) (pages : nat) :
  List.concat (map (fun page => displayedContracts page l) (seq 0 pages))
  = firstn (pages * CONTRACTS_PER_PAGE) l.
Proof.
  induction pages as [| pages IH]; [reflexivity |].
  rewrite seq_S, map_app, concat_app, IH. cbn [map List.concat Nat.add].
  rewrite app_nil_r, displayedContracts_eq.
  replace (S pages * CONTRACTS_PER_PAGE)%nat
    with (pages * CONTRACTS_PER_PAGE + CONTRACTS_PER_PAGE)%nat by lia.
  now rewrite firstn_add.
Qed.
End PaginationFacts.

(** X16.  The pages of the list of bets tile the filtered contracts: the
    first pages, one after the other, are the first [50 * pages] contracts
    in order, so every contract is on exactly one page; a page holds at most
    50 contracts and is empty exactly when the list has no more than
    [50 * page] contracts. *)
Theorem displayedContracts_tile {A : Type} (filteredContracts : list A)
    (pages : nat) :
  List.concat (map (fun page =>
                      BetsListMore.displayedContracts page filteredContracts)
                   (seq 0 pages))
  = firstn (pages * 50) filteredContracts
  /\ (forall page,
        (List.length (BetsListMore.displayedContracts page filteredContracts)
         <= 50)%nat)
  /\ (forall page,
        BetsListMore.displayedContracts page filteredContracts = [] <->
        (List.length filteredContracts <= page * 50)%nat)
  /\ ((List.length filteredContracts <= pages * 50)%nat ->
      List.concat (map (fun page =>
                          BetsListMore.displayedContracts page
                            filteredContracts)
                       (seq 0 pages))
      = filteredContracts).
Proof.
  pose proof (PaginationFacts.pages_concat filteredContracts pages) as Hconcat.
  unfold BetsListMore.CONTRACTS_PER_PAGE in Hconcat.
  split; [exact Hconcat |]. split; [| split].
  - intros page. rewrite PaginationFacts.displayedContracts_eq.
    rewrite length_firstn. unfold BetsListMore.CONTRACTS_PER_PAGE. lia.
  - intros page. rewrite PaginationFacts.displayedContracts_eq.
    unfold BetsListMore.CONTRACTS_PER_PAGE.
    rewrite <- length_zero_iff_nil, length_firstn, length_skipn. lia.
  - intros Hlen. rewrite Hconcat. now apply firstn_all2.
Qed.

Module TabFacts.
Import BetsList BetsListMore.

Lemma filter_split {A} (f : A -> bool) (l : list A) :
  Permutation l (filter f l ++ filter (fun x => negb (f x)) l).
Proof.
  induction l as [| x l IH]; cbn [filter app]; [constructor |].
  destruct (f x); cbn [negb app].
  - now constructor.
  - now apply Permutation_cons_app.
Qed.

Lemma filter_filter {A} (f g : A -> bool) (l : list A) :
  filter g (filter f l) = filter (fun x => f x && g x) l.
Proof.
  induction l as [| x l IH]; cbn [filter]; [reflexivity |].
  destruct (f x); cbn [filter andb]; [destruct (g x) |]; now rewrite IH.
Qed.

Lemma filter_all {A} (l : list A) : filter (fun _ => true) l = l.
Proof. induction l as [| x l IH]; cbn [filter]; now rewrite ?IH. Qed.

(** Exactly one of [open], [closed] and [resolved] accepts a contract. *)
Lemma tabs_exclusive (now : float) (c : Contract float) :
  (FILTERS_open now c = true /\ FILTERS_closed now c = false
   /\ FILTERS_resolved c = false)
  \/ (FILTERS_open now c = false /\ FILTERS_closed now c = true
      /\ FILTERS_resolved c = false)
  \/ (FILTERS_open now c = false /\ FILTERS_closed now c = false
      /\ FILTERS_resolved c = true).
Proof.
  unfold FILTERS_open, FILTERS_closed.
  destruct (FILTERS_resolved c); cbn [negb andb orb]; [tauto |].
  destruct (PrimFloat.ltb _ now); cbn [negb orb]; tauto.
Qed.

(** A number below another one is not NaN. *)
Lemma ltb_number (t x : float) :
  PrimFloat.ltb t x = true -> PrimFloat.eqb t t = true.
Proof.
  rewrite ltb_spec, eqb_spec. unfold SFltb, SFeqb, SFcompare.
  destruct (Prim2SF t) as [s | s | | s m e]; try reflexivity.
  - destruct s; reflexivity.
  - discriminate.
  - intros _. destruct s; now rewrite Z.compare_refl, Pos.compare_cont_refl.
Qed.
End TabFacts.

(** X17.  The filters of the list of bets sort every contract under exactly
    one of Sold, Active, Closed and Resolved: the contracts listed under
    All are, up to their order, those listed under the four others taken
    together, and a contract listed under Limit orders is an open one. *)
Theorem filteredContracts_tabs_partition (now : float)
    (hasShares hasLimitBets : Contract float -> bool)
    (sorted : list (Contract float)) :
  let tab f :=
    BetsListMore.filteredContracts now hasShares hasLimitBets f sorted in
  Permutation (tab BetsList.all)
              (tab BetsList.sold ++ tab BetsList.open ++ tab BetsList.closed
               ++ tab BetsList.resolved)
  /\ Permutation (tab BetsList.all) sorted
  /\ (forall c, In c (tab BetsList.limit_bet) ->
                In c sorted /\ BetsList.FILTERS now BetsList.open c = true
                /\ hasLimitBets c = true).
Proof.
  cbv zeta. unfold BetsListMore.filteredContracts.
  rewrite !TabFacts.filter_filter.
  cbn [BetsList.FILTERS BetsListMore.byShares andb].
  rewrite TabFacts.filter_all.
  split; [| split].
  - set (l := rev sorted).
    rewrite (TabFacts.filter_split (fun c => negb (hasShares c)) l) at 1.
    apply Permutation_app_head.
    rewrite (filter_ext (fun x => negb (negb (hasShares x))) hasShares)
      by (intros x; apply negb_involutive).
    clear. induction l as [| c l IH]; cbn [filter app]; [constructor |].
    destruct (hasShares c); [| now rewrite !andb_false_r].
    destruct (TabFacts.tabs_exclusive now c)
      as [(-> & -> & ->) | [(-> & -> & ->) | (-> & -> & ->)]];
      cbn [andb app].
    + now constructor.
    + now apply Permutation_cons_app.
    + rewrite app_assoc. apply Permutation_cons_app.
      rewrite <- app_assoc. exact IH.
  - symmetry. apply Permutation_rev.
  - intros c Hin. apply filter_In in Hin as [Hin Hc].
    apply andb_true_iff in Hc as [Hopen Hlimit].
    split; [now apply in_rev | auto].
Qed.

(** X18.  On a contract that is not resolved, the rows of the list
    ([ContractBets] and [BetRow]) agree with each other on whether the
    contract is closed, and a contract that they take as closed is listed
    under Closed.  They agree with the filter Closed whenever the close time
    is not 0; with a close time of 0 the filter takes the contract as closed
    and the rows do not. *)
Theorem isClosed_agrees_with_filter (now : float) (c : Contract float) :
  BetsList.FILTERS now BetsList.resolved c = false ->
  BetsListMore.ContractBets_isClosed now c
  = BetsListMore.BetRow_isClosed now c
  /\ (BetsListMore.ContractBets_isClosed now c = true ->
      BetsList.FILTERS now BetsList.closed c = true)
  /\ ((forall t, closeTime c = Some t -> PrimFloat.eqb t 0 = false) ->
      BetsList.FILTERS now BetsList.closed c
      = BetsListMore.ContractBets_isClosed now c)
  /\ (forall t, closeTime c = Some t -> PrimFloat.eqb t 0 = true ->
                PrimFloat.ltb t now = true ->
                BetsList.FILTERS now BetsList.closed c = true
                /\ BetsListMore.ContractBets_isClosed now c = false).
Proof.
  cbn [BetsList.FILTERS]. intros Hunresolved.
  unfold BetsList.FILTERS_closed, BetsListMore.ContractBets_isClosed,
    BetsListMore.BetRow_isClosed.
  rewrite Hunresolved. cbn [negb andb].
  split; [reflexivity |].
  destruct (closeTime c) as [t |]; [| rewrite BetsListFacts.ltb_infinity].
  - split; [| split].
    + intros Hclosed. now apply andb_true_iff in Hclosed as [_ Hlt].
    + intros Hnonzero. specialize (Hnonzero t eq_refl).
      destruct (PrimFloat.ltb t now) eqn:Hlt; [| now rewrite andb_false_r].
      unfold truthy, nisNaN. cbn [neqb n0 binary64].
      now rewrite (TabFacts.ltb_number Hlt), Hnonzero.
    + intros t' [= <-] Hzero Hlt. split; [exact Hlt |].
      unfold truthy. cbn [neqb n0 binary64]. rewrite Hzero.
      now rewrite orb_true_r.
  - split; [discriminate |]. split; [reflexivity |]. discriminate.
Qed.

Lemma isClosed_agrees_with_filter_witness :
  BetsList.FILTERS 1700000000000 BetsList.closed openContract
  = BetsListMore.ContractBets_isClosed 1700000000000 openContract.
Proof.
  apply (proj1 (proj2 (proj2 (@isClosed_agrees_with_filter 1700000000000
                                openContract eq_refl)))).
  intros t [= <-]. vm_compute. reflexivity.
Defined.

(** ** Scoring contracts *)

Module ScoreFacts.
Import ScoreContracts.

Lemma existsb_ids (c : Contract) (ids : list string) :
  existsb (String.eqb (id c)) ids = true <-> In (id c) ids.
Proof.
  rewrite existsb_exists. split.
  - intros (i & Hin & Heq). apply String.eqb_eq in Heq. now subst.
  - intros Hin. exists (id c). split; [exact Hin | apply String.eqb_refl].
Qed.

Lemma NoDup_ids_filter (f : Contract -> bool) (l : list Contract) :
  NoDup (map id l) -> NoDup (map id (filter f l)).
Proof.
  induction l as [| a l IH]; cbn [map filter]; [auto |].
  intros Hnd. inversion Hnd as [| ? ? Hnotin Hrest]; subst.
  destruct (f a); cbn [map]; [| now apply IH].
  constructor; [| now apply IH].
  intros Hin. apply Hnotin. apply in_map_iff in Hin as (x & Hx & Hin).
  apply filter_In in Hin as [Hin _]. apply in_map_iff. eauto.
Qed.

Lemma NoDup_app_disjoint {A} (l1 l2 : list A) :
  NoDup l1 -> NoDup l2 -> (forall x, In x l1 -> ~ In x l2) ->
  NoDup (l1 ++ l2).
Proof.
  induction l1 as [| a l1 IH]; cbn [app]; [auto |].
  intros Hnd1 Hnd2 Hdisjoint.
  inversion Hnd1 as [| ? ? Hnotin Hrest]; subst.
  constructor.
  - intros Hin. apply in_app_or in Hin as [Hin | Hin]; [contradiction |].
    apply (Hdisjoint a); [now left | exact Hin].
  - apply IH; auto. intros x Hx. apply Hdisjoint. now right.
Qed.

Lemma scoreAll_ids log dayAgo (contracts : list Contract) :
  exists kept, map fst (scoreAll log dayAgo contracts)
               = map id (filter kept contracts).
Proof.
  exists (needsUpdate log dayAgo).
  induction contracts as [| c contracts IH]; [reflexivity |].
  cbn [scoreAll flat_map filter]. fold (scoreAll log dayAgo contracts).
  destruct (needsUpdate log dayAgo c); cbn [app map fst]; now rewrite IH.
Qed.
End ScoreFacts.

(** X19.  When each of the two queries returns a contract at most once,
    [scoreContractsInternal] scores every contract of either query once:
    the ids of the contracts scored are distinct and are the ids of the two
    queries, a contract returned by both is taken from the active ones, and
    no document is updated twice. *)
Theorem scoreContracts_scores_each_once (log : float -> float)
    (dayAgo : float)
    (activeContracts previous : list ScoreContracts.Contract) :
  NoDup (map ScoreContracts.id activeContracts) ->
  NoDup (map ScoreContracts.id previous) ->
  let contracts := ScoreContracts.contractsToScore activeContracts previous in
  NoDup (map ScoreContracts.id contracts)
  /\ (forall i, In i (map ScoreContracts.id contracts) <->
                In i (map ScoreContracts.id activeContracts)
                \/ In i (map ScoreContracts.id previous))
  /\ (forall c, In c contracts ->
                In (ScoreContracts.id c)
                   (map ScoreContracts.id activeContracts) ->
                In c activeContracts)
  /\ NoDup (map fst (ScoreContracts.scoreContractsInternal log dayAgo
                       activeContracts previous)).
Proof.
  intros Hactive Hprevious. cbv zeta.
  assert (Hdistinct : NoDup (map ScoreContracts.id
                               (ScoreContracts.contractsToScore
                                  activeContracts previous))).
  { unfold ScoreContracts.contractsToScore. rewrite map_app.
    apply ScoreFacts.NoDup_app_disjoint;
      [exact Hactive | now apply ScoreFacts.NoDup_ids_filter |].
    intros i Hi Hin. apply in_map_iff in Hin as (c & <- & Hc).
    apply filter_In in Hc as [_ Hc]. apply negb_true_iff in Hc.
    apply ScoreFacts.existsb_ids in Hi. congruence. }
  split; [exact Hdistinct |]. split; [| split].
  - intros i. unfold ScoreContracts.contractsToScore.
    rewrite map_app, in_app_iff. split.
    + intros [Hin | Hin]; [now left | right].
      apply in_map_iff in Hin as (c & <- & Hc).
      apply filter_In in Hc as [Hc _]. now apply in_map.
    + intros [Hin | Hin]; [now left |].
      destruct (in_dec string_dec i (map ScoreContracts.id activeContracts))
        as [Hi | Hi]; [now left | right].
      apply in_map_iff in Hin as (c & <- & Hc). apply in_map.
      apply filter_In. split; [exact Hc |]. apply negb_true_iff.
      destruct (existsb _ _) eqn:Hex; [| reflexivity].
      now apply ScoreFacts.existsb_ids in Hex.
  - intros c Hc Hid. unfold ScoreContracts.contractsToScore in Hc.
    apply in_app_or in Hc as [Hc | Hc]; [exact Hc |].
    apply filter_In in Hc as [_ Hc]. apply negb_true_iff in Hc.
    apply ScoreFacts.existsb_ids in Hid. congruence.
  - unfold ScoreContracts.scoreContractsInternal.
    destruct (ScoreFacts.scoreAll_ids log dayAgo
                (ScoreContracts.contractsToScore activeContracts previous))
      as [kept ->].
    now apply ScoreFacts.NoDup_ids_filter.
Qed.

Lemma scoreContracts_scores_each_once_witness :
  NoDup (map ScoreContracts.id
           (ScoreContracts.contractsToScore [scoredContract]
              [scoredContract])).
Proof.
  apply (@scoreContracts_scores_each_once (fun x => x) 1690000000000
           [scoredContract] [scoredContract]);
    repeat constructor; intros [].
Defined.

(** X20.  A contract whose stored scores are the scores computed is updated
    again exactly when one of them is NaN, since [NaN !== NaN]; and a
    contract that gets no daily score but has one stored is updated on every
    run, with an update that holds no daily score. *)
Theorem scoreContracts_rewrites_NaN (log : float -> float) (dayAgo : float)
    (contract : ScoreContracts.Contract) :
  (ScoreContracts.popularityScore contract
   = Some (ScoreContracts.popularityScoreOf contract) ->
   ScoreContracts.dailyScore contract
   = ScoreContracts.dailyScoreOf log dayAgo contract ->
   ScoreContracts.needsUpdate log dayAgo contract
   = nisNaN (ScoreContracts.popularityScoreOf contract)
     || match ScoreContracts.dailyScoreOf log dayAgo contract with
        | Some score => nisNaN score
        | None => false
        end)
  /\ (ScoreContracts.dailyScoreOf log dayAgo contract = None ->
      ScoreContracts.dailyScore contract <> None ->
      ScoreContracts.scoreAll log dayAgo [contract]
      = [(ScoreContracts.id contract,
          {| ScoreContracts.newPopularityScore :=
               ScoreContracts.popularityScoreOf contract;
             ScoreContracts.newDailyScore := None |})]).
Proof.
  split.
  - intros Hp Hd. unfold ScoreContracts.needsUpdate. rewrite Hp, Hd.
    destruct (ScoreContracts.dailyScoreOf log dayAgo contract);
      reflexivity.
  - intros Hnone Hstored.
    unfold ScoreContracts.scoreAll, ScoreContracts.needsUpdate.
    cbn [flat_map]. rewrite Hnone.
    destruct (ScoreContracts.dailyScore contract); [| contradiction].
    cbn [ScoreContracts.strictNeq]. rewrite orb_true_r. reflexivity.
Qed.

Lemma scoreContracts_rewrites_NaN_witness :
  ScoreContracts.needsUpdate (fun x => x) 1690000000000 scoredContract
  = false.
Proof.
  apply (proj1 (@scoreContracts_rewrites_NaN (fun x => x) 1690000000000
                  scoredContract)); vm_compute; reflexivity.
Defined.

(** ** The security rules *)

Module RulesFacts.
Import FirestoreRules.

Lemma allows_and3 (a b : Cond) :
  allows (and3 a b) = true <-> a = Some true /\ b = Some true.
Proof.
  destruct a as [[|] |], b as [[|] |]; cbn; split;
    try discriminate; try tauto; intros [? ?]; discriminate.
Qed.

Lemma allows_or3 (a b : Cond) :
  allows (or3 a b) = true <-> a = Some true \/ b = Some true.
Proof.
  destruct a as [[|] |], b as [[|] |]; cbn; split;
    try discriminate; try tauto; intros [? | ?]; discriminate.
Qed.

Lemma allows_true (a : Cond) : allows a = true <-> a = Some true.
Proof.
  destruct a as [[|] |]; cbn; split; try discriminate; tauto.
Qed.

Lemma hasOnly_In (set allowed : list string) (key : string) :
  hasOnly set allowed = true -> In key set -> In key allowed.
Proof.
  unfold hasOnly. rewrite forallb_forall. intros Hall Hin.
  apply Hall, existsb_exists in Hin as (k & Hk & Heq).
  apply String.eqb_eq in Heq. now subst.
Qed.

Section Values.
Variable Value : Type.
Variable Value_eqb : Value -> Value -> bool.
Variable ofString : string -> Value.
Variable asList : Value -> option (list Value).
Hypothesis Value_eqb_eq : forall a b, Value_eqb a b = true <-> a = b.

Lemma get_In (key : string) (d : Data Value) (v : Value) :
  get key d = Some v -> In key (map fst d).
Proof.
  induction d as [| [k w] d IH]; cbn [get map fst]; [discriminate |].
  destruct (String.eqb key k) eqn:Hk.
  - apply String.eqb_eq in Hk. now left.
  - intros Hget. right. now apply IH.
Qed.

Lemma affected_false (new old : Data Value) (key : string) :
  affected Value_eqb new old key = false -> get key new = get key old.
Proof.
  unfold affected.
  destruct (get key new) as [a |], (get key old) as [b |];
    try discriminate; [| reflexivity].
  intros Heq. apply negb_false_iff, Value_eqb_eq in Heq. now subst.
Qed.

(** A key that is not affected has the value it had. *)
Lemma unaffected (new old : Data Value) (allowed : list string)
    (key : string) :
  hasOnly (affectedKeys Value_eqb new old) allowed = true ->
  ~ In key allowed -> get key new = get key old.
Proof.
  intros Honly Hkey. apply affected_false.
  destruct (affected Value_eqb new old key) eqn:Haff; [| reflexivity].
  exfalso. apply Hkey. eapply hasOnly_In; [exact Honly |].
  unfold affectedKeys. apply filter_In. split; [| exact Haff].
  apply nodup_In, in_or_app. unfold affected in Haff.
  destruct (get key new) as [a |] eqn:Hnew.
  - left. eapply get_In, Hnew.
  - destruct (get key old) as [b |] eqn:Hold; [| discriminate].
    right. eapply get_In, Hold.
Qed.

Lemma isUser_true (userId : string) (request : Request Value) :
  isUser userId request = Some true -> authUid request = Some userId.
Proof.
  unfold isUser. destruct (authUid request) as [u |]; [| discriminate].
  cbn [option_map]. intros [= Heq]. apply String.eqb_eq in Heq. now subst.
Qed.
End Values.

End RulesFacts.

(** X21.  An update of [users/{userId}] that the rules allow to a requester
    who is not an admin is made by the user [userId], changes no field
    other than the eight profile fields and the three referral fields (so
    not the balance), and changes [referredByUserId] only when the document
    had none, and then not to the user's own id. *)
Theorem users_update_protects_fields (Value : Type)
    (Value_eqb : Value -> Value -> bool) (ofString : string -> Value)
    (userId : string) (request : FirestoreRules.Request Value)
    (resource : FirestoreRules.Data Value) :
  (forall a b, Value_eqb a b = true <-> a = b) ->
  FirestoreRules.users_update Value_eqb ofString userId request resource
  = true ->
  FirestoreRules.allows (FirestoreRules.isAdmin request) = false ->
  FirestoreRules.authUid request = Some userId
  /\ (forall key,
        ~ In key (FirestoreRules.userKeys ++ FirestoreRules.referralKeys) ->
        FirestoreRules.get key (FirestoreRules.data request)
        = FirestoreRules.get key resource)
  /\ (FirestoreRules.get "referredByUserId" (FirestoreRules.data request)
      <> FirestoreRules.get "referredByUserId" resource ->
      FirestoreRules.get "referredByUserId" resource = None
      /\ exists v,
           FirestoreRules.get "referredByUserId" (FirestoreRules.data request)
           = Some v
           /\ v <> ofString userId).
Proof.
  intros Heq Hallowed Hadmin. unfold FirestoreRules.users_update in Hallowed.
  rewrite Hadmin in Hallowed. cbn [orb] in Hallowed.
  apply orb_true_iff in Hallowed as [Hprofile | Hreferral].
  - apply RulesFacts.allows_and3 in Hprofile as [Huser [= Honly]].
    split; [now apply RulesFacts.isUser_true |]. split.
    + intros key Hkey.
      eapply (@RulesFacts.unaffected Value Value_eqb Heq); [exact Honly |].
      intros Hin. apply Hkey, in_or_app. now left.
    + intros Hchanged. exfalso. apply Hchanged.
      eapply (@RulesFacts.unaffected Value Value_eqb Heq); [exact Honly |].
      cbn. intuition discriminate.
  - apply RulesFacts.allows_and3 in Hreferral as [Huser Hrest].
    apply RulesFacts.allows_true, RulesFacts.allows_and3 in Hrest
      as [[= Honly] Hrest].
    apply RulesFacts.allows_true, RulesFacts.allows_and3 in Hrest
      as [Hfirst Hself].
    split; [now apply RulesFacts.isUser_true |]. split.
    + intros key Hkey.
      eapply (@RulesFacts.unaffected Value Value_eqb Heq); [exact Honly |].
      intros Hin. apply Hkey, in_or_app. now right.
    + intros _. split.
      * unfold FirestoreRules.has in Hfirst.
        destruct (FirestoreRules.get "referredByUserId" resource);
          [discriminate | reflexivity].
      * destruct (FirestoreRules.get "referredByUserId"
                    (FirestoreRules.data request)) as [v |];
          [| discriminate].
        exists v. split; [reflexivity |]. intros ->.
        cbn in Hself. rewrite (proj2 (Heq _ _) eq_refl) in Hself.
        discriminate.
Qed.

Lemma users_update_protects_fields_witness :
  FirestoreRules.get "balance" (FirestoreRules.data aliceBio)
  = FirestoreRules.get "balance" aliceDoc.
Proof.
  apply (proj1 (proj2 (@users_update_protects_fields Field Field_eqb FString
                         "alice" aliceBio aliceDoc
                         ltac:(intros a b; unfold Field_eqb;
                               destruct (Field_eq_dec a b);
                               split; congruence)
                         ltac:(vm_compute; reflexivity)
                         ltac:(vm_compute; reflexivity)))).
  cbn. intuition discriminate.
Defined.

(** X22.  Updates of [contracts/{contractId}].  The first rule asks for no
    authentication: any request that affects the five tagging fields only
    is allowed.  An update allowed to a requester who is not an admin
    changes no field other than the five tagging fields and the five fields
    of the creator, and it changes a field of the creator only when the
    requester is the creator of the contract. *)
Theorem contracts_update_limits_fields (Value : Type)
    (Value_eqb : Value -> Value -> bool) (ofString : string -> Value)
    (request : FirestoreRules.Request Value)
    (resource : FirestoreRules.Data Value) :
  (forall a b, Value_eqb a b = true <-> a = b) ->
  (FirestoreRules.hasOnly
     (FirestoreRules.affectedKeys Value_eqb (FirestoreRules.data request)
        resource)
     FirestoreRules.contractTagKeys = true ->
   FirestoreRules.contracts_update Value_eqb ofString request resource
   = true)
  /\ (FirestoreRules.contracts_update Value_eqb ofString request resource
      = true ->
      FirestoreRules.allows (FirestoreRules.isAdmin request) = false ->
      (forall key,
         ~ In key (FirestoreRules.contractTagKeys
                   ++ FirestoreRules.contractCreatorKeys) ->
         FirestoreRules.get key (FirestoreRules.data request)
         = FirestoreRules.get key resource)
      /\ (forall key,
            In key FirestoreRules.contractCreatorKeys ->
            FirestoreRules.get key (FirestoreRules.data request)
            <> FirestoreRules.get key resource ->
            exists u,
              FirestoreRules.authUid request = Some u
              /\ FirestoreRules.get "creatorId" resource
                 = Some (ofString u))).
Proof.
  intros Heq. split.
  - intros Honly. unfold FirestoreRules.contracts_update,
      FirestoreRules.affectsOnly.
    rewrite Honly. reflexivity.
  - intros Hallowed Hadmin.
    unfold FirestoreRules.contracts_update in Hallowed.
    rewrite Hadmin, orb_false_r in Hallowed.
    apply orb_true_iff in Hallowed as [Htags | Hcreator].
    + apply RulesFacts.allows_true in Htags as [= Honly]. split.
      * intros key Hkey.
        eapply (@RulesFacts.unaffected Value Value_eqb Heq);
          [exact Honly |].
        intros Hin. apply Hkey, in_or_app. now left.
      * intros key Hkey Hchanged. exfalso. apply Hchanged.
        eapply (@RulesFacts.unaffected Value Value_eqb Heq);
          [exact Honly |].
        cbn in Hkey |- *.
        intuition (subst; discriminate).
    + apply RulesFacts.allows_and3 in Hcreator as [[= Honly] Hcreator].
      split.
      * intros key Hkey.
        eapply (@RulesFacts.unaffected Value Value_eqb Heq);
          [exact Honly |].
        intros Hin. apply Hkey, in_or_app. now right.
      * intros key _ _. unfold FirestoreRules.isCreator in Hcreator.
        destruct (FirestoreRules.get "creatorId" resource) as [creatorId |];
          [| discriminate].
        destruct (FirestoreRules.authUid request) as [u |]; [| discriminate].
        injection Hcreator as Hcreator. apply Heq in Hcreator.
        exists u. now subst.
Qed.

Lemma contracts_update_limits_fields_witness :
  exists u,
    FirestoreRules.authUid aliceQuestion = Some u
    /\ FirestoreRules.get "creatorId" aliceMarket = Some (FString u).
Proof.
  apply (proj2 (proj2 (@contracts_update_limits_fields Field Field_eqb
                         FString aliceQuestion aliceMarket
                         ltac:(intros a b; unfold Field_eqb;
                               destruct (Field_eq_dec a b);
                               split; congruence))
                  ltac:(vm_compute; reflexivity)
                  ltac:(vm_compute; reflexivity))
           "question"%string).
  - cbn. tauto.
  - vm_compute. discriminate.
Defined.

(** X23.  An update of [private-users/{userId}] that the rules allow to a
    requester who is not an admin comes from a signed-in user and is of one
    of two kinds: the user [userId] changes fields among the eleven listed
    ones only; or some user changes [blockedByUserIds] only, and then every
    id of the new list that the old list does not hold is the requester's
    own id. *)
Theorem privateUsers_update_limits (Value : Type)
    (Value_eqb : Value -> Value -> bool) (ofString : string -> Value)
    (asList : Value -> option (list Value)) (userId : string)
    (request : FirestoreRules.Request Value)
    (resource : FirestoreRules.Data Value) :
  (forall a b, Value_eqb a b = true <-> a = b) ->
  FirestoreRules.privateUsers_update Value_eqb ofString asList userId request
    resource = true ->
  FirestoreRules.allows (FirestoreRules.isAdmin request) = false ->
  exists u,
    FirestoreRules.authUid request = Some u
    /\ ((u = userId
         /\ forall key,
              ~ In key FirestoreRules.privateUserKeys ->
              FirestoreRules.get key (FirestoreRules.data request)
              = FirestoreRules.get key resource)
        \/ ((forall key,
               key <> "blockedByUserIds"%string ->
               FirestoreRules.get key (FirestoreRules.data request)
               = FirestoreRules.get key resource)
            /\ exists new old newIds oldIds,
                 FirestoreRules.get "blockedByUserIds"
                   (FirestoreRules.data request) = Some new
                 /\ FirestoreRules.get "blockedByUserIds" resource = Some old
                 /\ asList new = Some newIds
                 /\ asList old = Some oldIds
                 /\ forall i, In i newIds ->
                              In i oldIds \/ i = ofString u)).
Proof.
  intros Heq Hallowed Hadmin.
  assert (Hnot : FirestoreRules.isAdmin request <> Some true).
  { intros Hyes. rewrite Hyes in Hadmin. discriminate. }
  unfold FirestoreRules.privateUsers_update in Hallowed.
  apply orb_true_iff in Hallowed as [Hown | Hblock].
  - apply RulesFacts.allows_and3 in Hown as [Hwho [= Honly]].
    apply RulesFacts.allows_true, RulesFacts.allows_or3 in Hwho
      as [Huser | Hyes]; [| contradiction].
    exists userId. split; [now apply RulesFacts.isUser_true |]. left.
    split; [reflexivity |]. intros key Hkey.
    eapply (@RulesFacts.unaffected Value Value_eqb Heq); eassumption.
  - apply RulesFacts.allows_and3 in Hblock as [_ Hrest].
    apply RulesFacts.allows_true, RulesFacts.allows_and3 in Hrest
      as [[= Honly] Hself].
    unfold FirestoreRules.blocksOnlySelf in Hself.
    destruct (FirestoreRules.get "blockedByUserIds"
                (FirestoreRules.data request)) as [new |] eqn:Hnew;
      [| discriminate].
    destruct (FirestoreRules.get "blockedByUserIds" resource) as [old |]
      eqn:Hold; [| discriminate].
    destruct (FirestoreRules.authUid request) as [u |]; [| discriminate].
    destruct (asList new) as [newIds |] eqn:HnewIds; [| discriminate].
    destruct (asList old) as [oldIds |] eqn:HoldIds; [| discriminate].
    injection Hself as Hself. rewrite forallb_forall in Hself.
    exists u. split; [reflexivity |]. right. split.
    + intros key Hkey.
      eapply (@RulesFacts.unaffected Value Value_eqb Heq);
        [exact Honly |].
      intros [Hin | []]. now apply Hkey.
    + exists new, old, newIds, oldIds.
      split; [reflexivity |]. split; [reflexivity |].
      split; [exact HnewIds |]. split; [exact HoldIds |].
      intros i Hi.
      destruct (existsb (Value_eqb i) oldIds) eqn:Hex.
      * left. apply existsb_exists in Hex as (j & Hj & Hij).
        apply Heq in Hij. now subst.
      * right. apply Heq, Hself, filter_In. split; [exact Hi |].
        now rewrite Hex.
Qed.

Lemma privateUsers_update_limits_witness :
  exists u,
    FirestoreRules.authUid aliceBlocksBob = Some u
    /\ ((u = "bob"%string
         /\ forall key,
              ~ In key FirestoreRules.privateUserKeys ->
              FirestoreRules.get key (FirestoreRules.data aliceBlocksBob)
              = FirestoreRules.get key bobPrivate)
        \/ ((forall key,
               key <> "blockedByUserIds"%string ->
               FirestoreRules.get key (FirestoreRules.data aliceBlocksBob)
               = FirestoreRules.get key bobPrivate)
            /\ exists new old newIds oldIds,
                 FirestoreRules.get "blockedByUserIds"
                   (FirestoreRules.data aliceBlocksBob) = Some new
                 /\ FirestoreRules.get "blockedByUserIds" bobPrivate
                    = Some old
                 /\ Field_asList new = Some newIds
                 /\ Field_asList old = Some oldIds
                 /\ forall i, In i newIds ->
                              In i oldIds \/ i = FString u)).
Proof.
  apply (@privateUsers_update_limits Field Field_eqb FString Field_asList
           "bob" aliceBlocksBob bobPrivate).
  - intros a b. unfold Field_eqb. destruct (Field_eq_dec a b);
      split; congruence.
  - vm_compute. reflexivity.
  - vm_compute. reflexivity.
Defined.
